(** * ha-mqtt-discovery-rs: the documentation-to-schema generators

    A shallow embedding of the TypeScript generators of the repository:

    - [generate-openapi-specs/src/HomeAssistantConfigurationModel.ts]
      (module [OpenApi]): extraction of the configuration block and its
      lowering to OpenAPI object / array / string schemas;
    - [generator/src/entity.ts] (module [Entity]) and the later revision
      of that file that the sources carry beside it (module
      [EntityVariant]): the typed-model lowering;
    - [generator/src/device-class.ts] (module [DeviceClass]): the device-class
      enumeration scanner;
    - [generator/src/strings.ts] ([toPascalCase]).

    JavaScript strings are modelled by [string]: a character is a code unit
    in the range 0..255, which covers the patterns and sentinels of the
    sources.  Regular-expression literals are embedded as terms of [regex]
    and run by a backtracking matcher that follows the priority order of
    the ECMAScript matcher (greedy before shorter, lazy before longer,
    leftmost start first). *)

From Stdlib Require Import Bool Arith List Ascii String ZArith Lia Permutation.
From Stdlib Require Import DecimalString.
Import ListNotations.
Open Scope string_scope.

(** ** Strings *)

Definition LF : ascii := "010"%char.
Definition CR : ascii := "013"%char.
Definition nl : string := String LF EmptyString.

(** Text of several lines, each line followed by a line feed. *)
Fixpoint lines (l : list string) : string :=
  match l with
  | nil => EmptyString
  | x :: tl => x ++ nl ++ lines tl
  end.

Definition is_digit (c : ascii) : bool :=
  let n := nat_of_ascii c in Nat.leb 48 n && Nat.leb n 57.
Definition is_upper (c : ascii) : bool :=
  let n := nat_of_ascii c in Nat.leb 65 n && Nat.leb n 90.
Definition is_lower (c : ascii) : bool :=
  let n := nat_of_ascii c in Nat.leb 97 n && Nat.leb n 122.

Definition toUpperChar (c : ascii) : ascii :=
  if is_lower c then ascii_of_nat (nat_of_ascii c - 32) else c.
Definition toLowerChar (c : ascii) : ascii :=
  if is_upper c then ascii_of_nat (nat_of_ascii c + 32) else c.

Fixpoint map_string (f : ascii -> ascii) (s : string) : string :=
  match s with
  | EmptyString => EmptyString
  | String c s' => String (f c) (map_string f s')
  end.

(** [String.prototype.toUpperCase] / [toLowerCase]; only ever applied below
    to text matched by [\w], where they act on ASCII letters. *)
Definition toUpperCase : string -> string := map_string toUpperChar.
Definition toLowerCase : string -> string := map_string toLowerChar.

(** The regular-expression classes used by the sources. *)
Definition any_char (c : ascii) : bool := true.                (* [^] and . under the s flag *)
Definition dot (c : ascii) : bool :=                           (* . without the s flag *)
  negb (Ascii.eqb c LF || Ascii.eqb c CR).
Definition word_char (c : ascii) : bool :=                     (* \w *)
  is_digit c || is_upper c || is_lower c || Ascii.eqb c "_".
Definition is_char (a : ascii) (c : ascii) : bool := Ascii.eqb a c.
Definition not_char (a : ascii) (c : ascii) : bool := negb (Ascii.eqb a c).
Definition not_class (p : ascii -> bool) (c : ascii) : bool := negb (p c).

(** Character comparison under the i flag. *)
Definition eqb_ci (a b : ascii) : bool :=
  Ascii.eqb (toUpperChar a) (toUpperChar b).

(** The text of [s] in front of its suffix [s']. *)
Definition taken (s s' : string) : string :=
  substring 0 (length s - length s') s.

Fixpoint starts_with (w s : string) : bool :=
  match w with
  | EmptyString => true
  | String a w' =>
      match s with
      | String b s' => Ascii.eqb a b && starts_with w' s'
      | EmptyString => false
      end
  end.

(** [String.prototype.indexOf] and [includes]. *)
Fixpoint indexOf (w s : string) : option nat :=
  if starts_with w s then Some 0
  else match s with
       | EmptyString => None
       | String _ s' => option_map S (indexOf w s')
       end.

Definition includes (s w : string) : bool :=
  match indexOf w s with Some _ => true | None => false end.

(** [String.prototype.split] with a one-character separator. *)
Fixpoint split_on (sep : ascii) (s : string) : list string :=
  match s with
  | EmptyString => [EmptyString]
  | String c s' =>
      if Ascii.eqb c sep then EmptyString :: split_on sep s'
      else match split_on sep s' with
           | h :: t => String c h :: t
           | nil => [String c EmptyString]
           end
  end.

(** [Array.prototype.join] on strings. *)
Fixpoint join (sep : string) (l : list string) : string :=
  match l with
  | nil => EmptyString
  | [x] => x
  | x :: tl => x ++ sep ++ join sep tl
  end.

(** ** Regular expressions *)

Inductive regex : Type :=
| Lit (w : string)                 (* literal text *)
| LitI (w : string)                (* literal text under the i flag *)
| Cls (p : ascii -> bool)          (* one character of a class *)
| Star (p : ascii -> bool)         (* class*  : greedy *)
| StarLazy (p : ascii -> bool)     (* class*? : lazy *)
| Opt (r : regex)                  (* (?:r)?  : greedy *)
| Seq (r1 r2 : regex)
| Group (n : nat) (r : regex)      (* capture group number n *)
| Bol                              (* ^ without the m flag *)
| BolM                             (* ^ under the m flag *)
| Eol.                             (* $ without the m flag *)

Definition caps : Type := list (nat * string).

Fixpoint group (n : nat) (cs : caps) : option string :=
  match cs with
  | nil => None
  | (i, s) :: tl => if Nat.eqb i n then Some s else group n tl
  end.

Definition at_line_start (prev : option ascii) : bool :=
  match prev with
  | None => true
  | Some c => Ascii.eqb c LF || Ascii.eqb c CR
  end.

Section Matcher.
Context {R : Type}.

(** A position is the character in front of it (if any) and the text
    after it; a continuation receives the position reached and the
    captures made so far. *)
Definition cont : Type := option ascii -> string -> caps -> option R.

Fixpoint lit_m (eq : ascii -> ascii -> bool) (w : string)
    (prev : option ascii) (s : string) (cs : caps) (k : cont) : option R :=
  match w with
  | EmptyString => k prev s cs
  | String a w' =>
      match s with
      | String b s' => if eq a b then lit_m eq w' (Some b) s' cs k else None
      | EmptyString => None
      end
  end.

Fixpoint star_m (p : ascii -> bool)
    (prev : option ascii) (s : string) (cs : caps) (k : cont) : option R :=
  match s with
  | String c s' =>
      if p c then
        match star_m p (Some c) s' cs k with
        | Some x => Some x
        | None => k prev s cs
        end
      else k prev s cs
  | EmptyString => k prev s cs
  end.

Fixpoint lazy_m (p : ascii -> bool)
    (prev : option ascii) (s : string) (cs : caps) (k : cont) : option R :=
  match k prev s cs with
  | Some x => Some x
  | None =>
      match s with
      | String c s' => if p c then lazy_m p (Some c) s' cs k else None
      | EmptyString => None
      end
  end.

Fixpoint m (r : regex) (prev : option ascii) (s : string) (cs : caps)
    (k : cont) {struct r} : option R :=
  match r with
  | Lit w => lit_m Ascii.eqb w prev s cs k
  | LitI w => lit_m eqb_ci w prev s cs k
  | Cls p =>
      match s with
      | String c s' => if p c then k (Some c) s' cs else None
      | EmptyString => None
      end
  | Star p => star_m p prev s cs k
  | StarLazy p => lazy_m p prev s cs k
  | Opt r1 =>
      match m r1 prev s cs k with
      | Some x => Some x
      | None => k prev s cs
      end
  | Seq r1 r2 => m r1 prev s cs (fun prev' s' cs' => m r2 prev' s' cs' k)
  | Group n r1 =>
      m r1 prev s cs (fun prev' s' cs' => k prev' s' ((n, taken s s') :: cs'))
  | Bol => match prev with None => k prev s cs | Some _ => None end
  | BolM => if at_line_start prev then k prev s cs else None
  | Eol => match s with EmptyString => k prev s cs | _ => None end
  end.
End Matcher.

(** The result of [RegExp.prototype.exec]: the text in front of the match,
    the matched text, the text after it (with the character in front of
    that), and the capture groups. *)
Record MatchResult : Type := mkMatch {
  before : string;
  matched : string;
  after : string;
  after_prev : option ascii;
  groups : caps }.

Definition shift (c : ascii) (mt : MatchResult) : MatchResult :=
  mkMatch (String c (before mt)) (matched mt) (after mt) (after_prev mt) (groups mt).

Definition match_here (r : regex) (prev : option ascii) (s : string) : option MatchResult :=
  m r prev s nil (fun prev' s' cs => Some (mkMatch EmptyString (taken s s') s' prev' cs)).

(** Leftmost match at or after a position. *)
Fixpoint search (r : regex) (prev : option ascii) (s : string) : option MatchResult :=
  match match_here r prev s with
  | Some mt => Some mt
  | None =>
      match s with
      | EmptyString => None
      | String c s' => option_map (shift c) (search r (Some c) s')
      end
  end.

(** [r.exec(s)] on a regular expression whose [lastIndex] is 0. *)
Definition exec (r : regex) (s : string) : option MatchResult := search r None s.

(** [s.replace(r, f)] for [r] without the g flag. *)
Definition replace (r : regex) (f : MatchResult -> string) (s : string) : string :=
  match exec r s with
  | Some mt => before mt ++ f mt ++ after mt
  | None => s
  end.

(** [s.replace(r, f)] for [r] with the g flag: every match from left to
    right, an empty match being followed by a step of one character. *)
Fixpoint replace_from (fuel : nat) (r : regex) (f : MatchResult -> string)
    (prev : option ascii) (s : string) : string :=
  match fuel with
  | O => s
  | S fuel' =>
      match search r prev s with
      | None => s
      | Some mt =>
          before mt ++ f mt ++
          match matched mt with
          | EmptyString =>
              match after mt with
              | EmptyString => EmptyString
              | String c t => String c (replace_from fuel' r f (Some c) t)
              end
          | String _ _ => replace_from fuel' r f (after_prev mt) (after mt)
          end
      end
  end.

Definition replaceAll (r : regex) (f : MatchResult -> string) (s : string) : string :=
  replace_from (S (length s)) r f None s.

Definition with_text (t : string) (_ : MatchResult) : string := t.

(** ** JavaScript values, exceptions *)

Set Warnings "-register-all".

Inductive value : Type :=
| VUndefined
| VNull
| VBool (b : bool)
| VNum (text : string)             (* a number, by its decimal text *)
| VStr (s : string)
| VArr (l : list value)
| VObj (o : list (string * value)). (* own properties, in enumeration order *)

(** The sources compute with no number: they convert one to a string and
    test it for truth, nothing else.  A number is therefore given by the
    text that [Number::toString] yields for it ("10", "0.5", "1e+21",
    "NaN", ...), which tells the numbers apart but for the sign of zero,
    both zeros being "0".

    [ToString]: what a template literal does to an interpolated value. *)
Fixpoint ToString (v : value) : string :=
  match v with
  | VUndefined => "undefined"
  | VNull => "null"
  | VBool true => "true"
  | VBool false => "false"
  | VNum text => text
  | VStr s => s
  | VArr l =>
      join ","
        (map (fun e => match e with
                       | VUndefined | VNull => EmptyString
                       | _ => ToString e
                       end) l)
  | VObj _ => "[object Object]"
  end.

(** [ToBoolean]: of the numbers, the zeros and NaN are falsy. *)
Definition truthy (v : value) : bool :=
  match v with
  | VUndefined | VNull => false
  | VBool b => b
  | VNum text => negb (String.eqb text "0" || String.eqb text "NaN")
  | VStr EmptyString => false
  | VStr (String _ _) => true
  | VArr _ | VObj _ => true
  end.

Inductive error : Type :=
| TypeError        (* a property read on null or undefined, Object.entries(undefined) *)
| DecodeError      (* thrown by the YAML decoder *)
| FileNotFound.    (* thrown by readFileSync *)

Inductive result (A : Type) : Type :=
| Ok (a : A)
| Throw (e : error).
Arguments Ok {A} a.
Arguments Throw {A} e.

Definition bind {A B : Type} (x : result A) (f : A -> result B) : result B :=
  match x with
  | Ok a => f a
  | Throw e => Throw e
  end.

Notation "x <- e ;; k" := (bind e (fun x => k))
  (at level 61, e at next level, right associativity).

(** Sequencing of a throwing function over an array, left to right. *)
Definition mapM {A B : Type} (f : A -> result B) : list A -> result (list B) :=
  fix go (l : list A) : result (list B) :=
    match l with
    | nil => Ok nil
    | a :: tl =>
        match f a with
        | Throw e => Throw e
        | Ok b => match go tl with
                  | Throw e => Throw e
                  | Ok bs => Ok (b :: bs)
                  end
        end
    end.

(** The type tag of an attribute record: a string, or (the compound tag of
    the corpus) an array of strings. *)
Inductive tag : Type :=
| TStr (s : string)
| TArr (l : list string).

(** *** Objects as ordered mappings

    A JavaScript object used as a mapping is the list of its entries in the
    order [Object.entries] yields them: its names are pairwise distinct,
    those that are array indices come first, in ascending numeric order,
    and the others follow in the order of their creation ([own_entries]
    below).  The entries handed to [Object.fromEntries] by the sources are
    those of such an object, filtered or mapped name by name; on them the
    order of insertion is the order of enumeration. *)

Definition names {V : Type} (o : list (string * V)) : list string := map fst o.

Fixpoint get {V : Type} (o : list (string * V)) (name : string) : option V :=
  match o with
  | nil => None
  | (n, v) :: tl => if String.eqb n name then Some v else get tl name
  end.

(** [o[name] = v]: an existing name keeps its place, a new one goes last. *)
Fixpoint set {V : Type} (o : list (string * V)) (name : string) (v : V) : list (string * V) :=
  match o with
  | nil => [(name, v)]
  | (n, w) :: tl => if String.eqb n name then (n, v) :: tl else (n, w) :: set tl name v
  end.

Definition Object_fromEntries {V : Type} (entries : list (string * V)) : list (string * V) :=
  fold_left (fun o e => set o (fst e) (snd e)) entries nil.

(** An array index: the canonical decimal text of an integer from 0 to
    2^32 - 2. *)
Fixpoint decimal_value (s : string) (acc : Z) : Z :=
  match s with
  | EmptyString => acc
  | String c t => decimal_value t (10 * acc + (Z.of_nat (nat_of_ascii c) - 48))
  end.

Fixpoint digits (s : string) : bool :=
  match s with
  | EmptyString => true
  | String c t => is_digit c && digits t
  end.

Definition array_index (name : string) : option Z :=
  match name with
  | EmptyString => None
  | String c t =>
      if digits name
         && (negb (Ascii.eqb c "0") || Nat.eqb (length t) 0)
         && Z.leb (decimal_value name 0) 4294967294
      then Some (decimal_value name 0)
      else None
  end.

Definition is_array_index (name : string) : bool :=
  match array_index name with Some _ => true | None => false end.

(** The own properties of an object in the order of enumeration
    ([OrdinaryOwnPropertyKeys]), from the properties in the order of their
    creation: the array indices in ascending order, then the other names as
    created. *)
Fixpoint insert_index {V : Type} (i : Z) (e : string * V) (l : list (string * V))
  : list (string * V) :=
  match l with
  | nil => [e]
  | x :: tl =>
      match array_index (fst x) with
      | Some j => if Z.leb i j then e :: l else x :: insert_index i e tl
      | None => e :: l
      end
  end.

Definition own_entries {V : Type} (created : list (string * V)) : list (string * V) :=
  (fold_right (fun e sorted => match array_index (fst e) with
                               | Some i => insert_index i e sorted
                               | None => sorted
                               end) nil created
   ++ filter (fun e => negb (is_array_index (fst e))) created)%list.

(** A property read [o.name] on an object of values. *)
Definition prop (o : list (string * value)) (name : string) : value :=
  match get o name with
  | Some v => v
  | None => VUndefined
  end.

Definition mem (x : string) (l : list string) : bool := existsb (String.eqb x) l.

(** Pairwise distinct names: the invariant of an object's own properties. *)
Fixpoint distinct (l : list string) : bool :=
  match l with
  | nil => true
  | x :: tl => negb (mem x tl) && distinct tl
  end.

(** The file system read by [readFileSync]: the text of a path, if any. *)
Definition readFileSync (fs : string -> option string) (p : string) : result string :=
  match fs p with
  | Some text => Ok text
  | None => Throw FileNotFound
  end.

(** The sentinels of the configuration block. *)
Definition OPEN : string := "{% configuration %}".
Definition CLOSE : string := "{% endconfiguration %}".

(** The text of a capture group that takes part in the match. *)
Definition group_text (n : nat) (mt : MatchResult) : string :=
  match group n (groups mt) with
  | Some s => s
  | None => EmptyString
  end.

(** ** generator/src/strings.ts *)

(** /(\w)(G)/g, the group G being \w* *)
Definition re_word : regex := Seq (Group 1 (Cls word_char)) (Group 2 (Star word_char)).

Definition toPascalCase (text : string) : string :=
  join EmptyString
    (map (fun word =>
            replaceAll re_word
              (fun mt => toUpperCase (group_text 1 mt) ++ toLowerCase (group_text 2 mt))
              word)
       (split_on "_" text)).

(** ** generate-openapi-specs/src/HomeAssistantConfigurationModel.ts *)

Module OpenApi.

Definition AVAILABILITY_PROPERTIES : list string :=
  [ "availability_topic";
    "payload_available";
    "payload_not_available";
    "availability_template" ].

(** [Property]: the union [ObjectProperty | ListProperty | StringProperty]
    as the decoded mapping carries it, a field that is missing being
    [undefined] ([None], [VUndefined]). *)
Inductive Property : Type := mkProperty {
  description : option string;
  required : bool;
  type : option tag;
  keys : option (list (string * Property));
  default : value }.

Definition is_tag (t : option tag) (s : string) : bool :=
  match t with
  | Some (TStr x) => String.eqb x s
  | _ => false
  end.

(** [describe]: the description and the default annotation, the falsy ones
    dropped, joined by a space. *)
Definition describe (prop : Property) : string :=
  let def :=
    if truthy (default prop)
    then Some ("(Default: " ++ ToString (default prop) ++ ")")
    else None in
  join " "
    (flat_map (fun s => match s with
                        | Some (String c t) => [String c t]
                        | _ => nil
                        end)
       [description prop; def]).

Definition toOpenapiStringProperty (propertyModel : Property) : value :=
  VObj [ ("description", VStr (describe propertyModel));
         ("type", VStr "string") ].

Section Lowering.
(** The three mutually recursive lowerings, written over the function
    [lower] that they apply to each child. *)
Variable lower : Property -> result value.

(** [Object.fromEntries(Object.entries(keys).map(([name, model]) =>
    [name, lower(model)]))] *)
Definition lower_entries (children : list (string * Property))
  : result (list (string * value)) :=
  entries <- mapM (fun e => match lower (snd e) with
                            | Ok v => Ok (fst e, v)
                            | Throw x => Throw x
                            end) children ;;
  Ok (Object_fromEntries entries).

Definition objectProperty (propertyModel : Property) : result value :=
  match keys propertyModel with
  | None => Throw TypeError
  | Some children =>
      properties <- lower_entries children ;;
      Ok (VObj
            [ ("type", VStr "object");
              ("description", VStr (describe propertyModel));
              ("required",
                VArr (map (fun e => VStr (fst e))
                        (filter (fun e => required (snd e)) children)));
              ("properties", VObj properties) ])
  end.

Definition listProperty (propertyModel : Property) : result value :=
  match keys propertyModel with
  | Some children =>
      items <- lower_entries children ;;
      Ok (VObj
            [ ("description", VStr (describe propertyModel));
              ("type", VStr "array");
              ("items", VObj items) ])
  | None =>
      Ok (VObj
            [ ("description", VStr (describe propertyModel));
              ("type", VStr "array");
              ("items", VObj [ ("type", VStr "string") ]) ])
  end.
End Lowering.

(** The tags of the second group of [case] labels. *)
Definition string_tags : list string :=
  [ "device_class"; "boolean"; "integer"; "template"; "string" ].

Fixpoint toOpenapiObjectPropertyA (propertyModel : Property) : result value :=
  match type propertyModel with
  | None => objectProperty toOpenapiObjectPropertyA propertyModel
  | Some (TStr t) =>
      if String.eqb t "map" then
        objectProperty toOpenapiObjectPropertyA propertyModel
      else if String.eqb t "list" then
        listProperty toOpenapiObjectPropertyA propertyModel
      else if mem t string_tags then
        Ok (toOpenapiStringProperty propertyModel)
      else Ok VUndefined          (* no case applies: the function ends *)
  | Some (TArr _) => Ok VUndefined
  end.

(** The records the interfaces of the source describe: an object node
    ([type] absent or "map") has [keys], the names of a [keys] mapping are
    distinct, and so on below every node that the lowering visits. *)
Fixpoint well_formed (p : Property) : bool :=
  match type p with
  | None =>
      match keys p with
      | Some children =>
          distinct (names children) && forallb (fun e => well_formed (snd e)) children
      | None => false
      end
  | Some (TStr t) =>
      if String.eqb t "map" then
        match keys p with
        | Some children =>
            distinct (names children) && forallb (fun e => well_formed (snd e)) children
        | None => false
        end
      else if String.eqb t "list" then
        match keys p with
        | Some children =>
            distinct (names children) && forallb (fun e => well_formed (snd e)) children
        | None => true
        end
      else true
  | Some (TArr _) => true
  end.

(** The tags that some [case] label of the switch names. *)
Definition known_tag (t : option tag) : bool :=
  match t with
  | None => true
  | Some (TStr s) => mem s ("map" :: "list" :: string_tags)
  | Some (TArr _) => false
  end.

Definition toOpenapiObjectProperty : Property -> result value :=
  objectProperty toOpenapiObjectPropertyA.

Definition toOpenapiListProperty : Property -> result value :=
  listProperty toOpenapiObjectPropertyA.

(** *** The class [HomeAssistantConfiguration] *)

(** /^.*[/]/ *)
Definition re_dirname : regex := Seq Bol (Seq (Star dot) (Cls (is_char "/"))).
(** /.mqtt.markdown$/ *)
Definition re_suffix : regex :=
  Seq (Cls dot) (Seq (Lit "mqtt") (Seq (Cls dot) (Seq (Lit "markdown") Eol))).
(** /.*{% configuration %}/s *)
Definition re_upto_open : regex := Seq (Star any_char) (Lit OPEN).
(** /{% endconfiguration %}.*/s *)
Definition re_from_close : regex := Seq (Lit CLOSE) (Star any_char).
(** /.*\n---\n/s *)
Definition re_front_matter : regex :=
  Seq (Star any_char) (Lit (nl ++ "---" ++ nl)).

(** White space and line terminators, as [trim] strips them. *)
Definition is_space (c : ascii) : bool :=
  let n := nat_of_ascii c in
  (Nat.leb 9 n && Nat.leb n 13) || Nat.eqb n 32 || Nat.eqb n 160.

Fixpoint trimStart (s : string) : string :=
  match s with
  | String c t => if is_space c then trimStart t else s
  | EmptyString => EmptyString
  end.

Fixpoint trimEnd (s : string) : string :=
  match s with
  | EmptyString => EmptyString
  | String c t =>
      match trimEnd t with
      | EmptyString => if is_space c then EmptyString else String c EmptyString
      | r => String c r
      end
  end.

Definition trim (s : string) : string := trimEnd (trimStart s).

Record HomeAssistantConfiguration : Type := mkConfiguration {
  path : string;
  name : string;
  cfg_description : option string;   (* the field [description] *)
  source : string }.

(** The two [replace] calls that isolate the configuration block. *)
Definition extract_source (text : string) : string :=
  replace re_from_close (with_text EmptyString)
    (replace re_upto_open (with_text EmptyString) text).

Section Files.
Variable fs : string -> option string.

Definition constructor (p : string) : result HomeAssistantConfiguration :=
  let name :=
    replace re_suffix (with_text EmptyString)
      (replace re_dirname (with_text EmptyString) p) in
  text <- readFileSync fs p ;;
  let source := extract_source text in
  let description :=
    match readFileSync fs (replace (Lit ".mqtt.markdown") (with_text ".markdown") p) with
    | Ok altSource =>
        hd_error
          (filter (fun line => negb (Nat.eqb (length (trim line)) 0))
             (split_on LF (replace re_front_matter (with_text EmptyString) altSource)))
    | Throw _ => None
    end in
  Ok (mkConfiguration p name description source).
End Files.

(** [Object.entries] on a value. *)
Definition index_name (i : nat) : string := NilZero.string_of_uint (Nat.to_uint i).

Definition Object_entries (v : value) : result (list (string * value)) :=
  match v with
  | VUndefined | VNull => Throw TypeError
  | VObj o => Ok o
  | VArr l => Ok (combine (map index_name (seq 0 (List.length l))) l)
  | VStr s =>
      let cs := list_ascii_of_string s in
      Ok (combine (map index_name (seq 0 (List.length cs)))
            (map (fun c => VStr (String c EmptyString)) cs))
  | VBool _ | VNum _ => Ok nil
  end.

(** A property read [v.name]. *)
Definition member (v : value) (n : string) : result value :=
  match v with
  | VUndefined | VNull => Throw TypeError
  | VObj o => Ok (prop o n)
  | _ => Ok VUndefined
  end.

Section Decoder.
(** [yaml.load] of js-yaml, typed as the source declares its result
    ([ConfigurationModel]): the decoded mapping, or an exception. *)
Variable yaml_load : string -> result (list (string * Property)).

Definition toOpenapiObjectModel (this : HomeAssistantConfiguration) : result value :=
  config <- yaml_load (source this) ;;
  toOpenapiObjectProperty
    (mkProperty (cfg_description this) true (Some (TStr "map")) (Some config) VUndefined).

Definition getAvailabilityModel (this : HomeAssistantConfiguration) : result value :=
  model <- toOpenapiObjectModel this ;;
  properties <- member model "properties" ;;
  availability <- member properties "availability" ;;
  availability_mode <- member properties "availability_mode" ;;
  entries <- Object_entries properties ;;
  Ok (VObj
        [ ("oneOf",
            VArr
              [ VObj [ ("allOf", VArr [ availability; availability_mode ]) ];
                VObj (Object_fromEntries
                        (filter (fun e => mem (fst e) AVAILABILITY_PROPERTIES) entries)) ]) ]).

Definition getDeviceModel (this : HomeAssistantConfiguration) : result value :=
  model <- toOpenapiObjectModel this ;;
  properties <- member model "properties" ;;
  member properties "device".

(** The body of the loop over the integration documents (the script next
    to the model): the file it writes, as name and content. *)
Section Batch.
Variable fs : string -> option string.
Variable yaml_dump : value -> string.
Variable INTEGRATIONS_DOCS DEVENV_ROOT : string.

Definition convert (file : string) : result (string * string) :=
  let filePath := INTEGRATIONS_DOCS ++ "/" ++ file in
  config <- constructor fs filePath ;;
  openapiModel <- toOpenapiObjectModel config ;;
  Ok (DEVENV_ROOT ++ "/specs/fragments/" ++ name config ++ ".yml",
      "# Auto-generated Openapi model from the following content:" ++ nl
      ++ replaceAll BolM (with_text "# ") (source config) ++ nl ++ nl
      ++ yaml_dump openapiModel).
End Batch.
End Decoder.

End OpenApi.

(** ** generator/src/entity.ts and its later revision *)

(** [FieldAttributes]: a decoded attribute record and the fields that
    [appendRustType] adds to it in place ([iterable] by the later revision
    only).  Of [keys] only the presence is read. *)
Record FieldAttributes : Type := mkField {
  description : option string;
  required : bool;
  type : option tag;
  keys : option (list string);
  rustType : option string;
  import : option string;
  useInto : option bool;
  iterable : option bool;
  rustSafeName : option string }.

Definition set_rustSafeName (v : string) (a : FieldAttributes) : FieldAttributes :=
  mkField (description a) (required a) (type a) (keys a) (rustType a) (import a)
    (useInto a) (iterable a) (Some v).
Definition set_rustType (v : string) (a : FieldAttributes) : FieldAttributes :=
  mkField (description a) (required a) (type a) (keys a) (Some v) (import a)
    (useInto a) (iterable a) (rustSafeName a).
Definition set_import (v : string) (a : FieldAttributes) : FieldAttributes :=
  mkField (description a) (required a) (type a) (keys a) (rustType a) (Some v)
    (useInto a) (iterable a) (rustSafeName a).
Definition set_useInto (v : bool) (a : FieldAttributes) : FieldAttributes :=
  mkField (description a) (required a) (type a) (keys a) (rustType a) (import a)
    (Some v) (iterable a) (rustSafeName a).
Definition set_iterable (v : bool) (a : FieldAttributes) : FieldAttributes :=
  mkField (description a) (required a) (type a) (keys a) (rustType a) (import a)
    (useInto a) (Some v) (rustSafeName a).

(** A record as the decoder yields it. *)
Definition field (d : string) (req : bool) (t : tag) (k : option (list string))
  : FieldAttributes :=
  mkField (Some d) req (Some t) k None None None None None.

(** [["list", "map"].includes(attrs.type)] *)
Definition list_or_map (t : option tag) : bool :=
  match t with
  | Some (TStr s) => mem s [ "list"; "map" ]
  | _ => false
  end.

(** [attrs.type.includes("list")], on a string or on an array. *)
Definition type_includes_list (t : option tag) : result bool :=
  match t with
  | None => Throw TypeError
  | Some (TStr s) => Ok (includes s "list")
  | Some (TArr l) => Ok (mem "list" l)
  end.

(** new RegExp("/integrations/(?<name>G)/#device-class"), the group G
    being [^/]* *)
Definition re_anchor : regex :=
  Seq (Lit "/integrations/")
    (Seq (Group 1 (Star (not_char "/"))) (Lit "/#device-class")).

(** The argument of [exec], converted to a string. *)
Definition description_text (a : FieldAttributes) : string :=
  match description a with
  | Some d => d
  | None => "undefined"
  end.

(** [exec(attrs.description)?.groups.name], when it is truthy. *)
Definition anchor_name (a : FieldAttributes) : option string :=
  match exec re_anchor (description_text a) with
  | Some mt =>
      match group_text 1 mt with
      | EmptyString => None
      | entityName => Some entityName
      end
  | None => None
  end.

Record MqttEntity : Type := mkEntity {
  entityName : string;
  entityDoc : string;
  imports : list string;           (* the later revision only *)
  properties : list (string * FieldAttributes) }.

Module Entity.

Definition IGNORED_ATTRS : list string :=
  [ "availability_mode";
    "availability_template";
    "availability_topic";
    "expire_after";
    "device";
    "entity_category";
    EmptyString ].

(** /{% configuration %}(G){% endconfiguration %}/gm, the group G being the
    greedy [^]* *)
Definition re_configuration : regex :=
  Seq (Lit OPEN) (Seq (Group 1 (Star any_char)) (Lit CLOSE)).

(** The first [switch] of [appendRustType], on [attrs.type]. *)
Definition base_type (attrs : FieldAttributes) : result FieldAttributes :=
  match type attrs with
  | Some (TStr t) =>
      if mem t [ "template"; "string"; "icon" ] then
        Ok (set_useInto true (set_rustType "String" attrs))
      else if String.eqb t "float" then Ok (set_rustType "f32" attrs)
      else if String.eqb t "integer" then Ok (set_rustType "i32" attrs)
      else if String.eqb t "boolean" then Ok (set_rustType "bool" attrs)
      else
        b <- type_includes_list (type attrs) ;;
        Ok (if b then set_rustType "Vec<String>" attrs else attrs)
  | _ =>
      b <- type_includes_list (type attrs) ;;
      Ok (if b then set_rustType "Vec<String>" attrs else attrs)
  end.

(** The second [switch], on [name]. *)
Definition name_override (name : string) (attrs : FieldAttributes) : FieldAttributes :=
  if String.eqb name "device_class" then
    match anchor_name attrs with
    | Some entityName =>
        let deviceClassType := toPascalCase entityName ++ "DeviceClass" in
        set_import ("use super::device_classes::" ++ deviceClassType)
          (set_rustType deviceClassType attrs)
    | None => attrs
    end
  else if String.eqb name "unit_of_measurement" then
    set_import "use super::units::Unit" (set_rustType "Unit" attrs)
  else if String.eqb name "state_class" then
    set_import "use super::common::SensorStateClass" (set_rustType "SensorStateClass" attrs)
  else if String.eqb name "qos" then
    set_import "use super::common::Qos" (set_rustType "Qos" attrs)
  else attrs.

Definition appendRustType (name : string) (attrs : FieldAttributes) : result FieldAttributes :=
  let attrs :=
    set_rustSafeName (if String.eqb name "type" then "r#" ++ name else name) attrs in
  attrs <- base_type attrs ;;
  Ok (name_override name attrs).

(** The two filters and the loop over the entries, for an ignore list. *)
Definition lower_fields (ignored : list string)
    (modelDescriptor : list (string * FieldAttributes))
  : result (list (string * FieldAttributes)) :=
  let entries :=
    filter (fun e => negb (mem (fst e) ignored))
      (filter (fun e => negb (list_or_map (type (snd e)))) modelDescriptor) in
  mapM (fun e => attrs <- appendRustType (fst e) (snd e) ;; Ok (fst e, attrs)) entries.

Section Generator.
Variable fs : string -> option string.
(** [YAML.parse] of the yaml package, typed as the source uses its result. *)
Variable YAML_parse : string -> result (list (string * FieldAttributes)).

Definition generateMqttEntityModel (name docFile : string) : result MqttEntity :=
  docContent <- readFileSync fs docFile ;;
  match exec re_configuration docContent with
  | None =>
      (* modelDescriptorYaml[1] on null, in the try block and again in
         the catch block *)
      Throw TypeError
  | Some modelDescriptorYaml =>
      modelDescriptor <- YAML_parse (group_text 1 modelDescriptorYaml) ;;
      entries <- lower_fields IGNORED_ATTRS modelDescriptor ;;
      Ok (mkEntity name docContent nil (Object_fromEntries entries))
  end.

(** The body of the loop of index.ts over the entities: the file it
    writes, as name and content. *)
Variable render : string -> MqttEntity -> string.
Variable BASEDIR : string.

Definition generate_entity (entityName : string) : result (string * string) :=
  model <- generateMqttEntityModel entityName
             (BASEDIR ++ "/generator/input/" ++ entityName ++ ".mqtt.markdown") ;;
  template <- readFileSync fs (BASEDIR ++ "/generator/src/rust_model.mustache") ;;
  Ok (BASEDIR ++ "/src/mqtt/" ++ entityName ++ ".rs", render template model).
End Generator.

End Entity.

Module EntityVariant.

Definition IGNORED_ATTRS : list string :=
  [ "availability";
    "availability_mode";
    "availability_template";
    "availability_topic";
    "payload_available";
    "payload_not_available";
    "expire_after";
    "device";
    "entity_category" ].

(** /{% configuration %}(G){% endconfiguration %}/gm, the group G being the
    lazy [^]*? *)
Definition re_configuration : regex :=
  Seq (Lit OPEN) (Seq (Group 1 (StarLazy any_char)) (Lit CLOSE)).

Definition iterable_string (attrs : FieldAttributes) : FieldAttributes :=
  set_useInto true (set_iterable true (set_rustType "String" attrs)).

Definition base_type (attrs : FieldAttributes) : result FieldAttributes :=
  match type attrs with
  | Some (TStr t) =>
      if mem t [ "template"; "string"; "icon" ] then
        Ok (set_useInto true (set_rustType "String" attrs))
      else if String.eqb t "float" then
        Ok (set_import "pub use rust_decimal::Decimal" (set_rustType "Decimal" attrs))
      else if String.eqb t "integer" then Ok (set_rustType "i32" attrs)
      else if String.eqb t "boolean" then Ok (set_rustType "bool" attrs)
      else if String.eqb t "list" then
        Ok (match keys attrs with
            | None => iterable_string attrs
            | Some _ => attrs
            end)
      else
        b <- type_includes_list (type attrs) ;;
        Ok (if b then iterable_string attrs else attrs)
  | _ =>
      b <- type_includes_list (type attrs) ;;
      Ok (if b then iterable_string attrs else attrs)
  end.

Definition name_override (name : string) (attrs : FieldAttributes) : FieldAttributes :=
  if String.eqb name "device_class" then
    match anchor_name attrs with
    | Some entityName =>
        let deviceClassType := toPascalCase entityName ++ "DeviceClass" in
        set_import ("use super::device_classes::" ++ deviceClassType)
          (set_rustType deviceClassType attrs)
    | None => attrs
    end
  else if String.eqb name "unit_of_measurement" then
    set_import "use super::units::Unit" (set_rustType "Unit" attrs)
  else if String.eqb name "state_class" then
    set_import "use super::common::SensorStateClass" (set_rustType "SensorStateClass" attrs)
  else if String.eqb name "qos" then
    set_import "use super::common::Qos" (set_rustType "Qos" attrs)
  else if String.eqb name "temperature_unit" then
    set_import "use super::common::TemperatureUnit" (set_rustType "TemperatureUnit" attrs)
  else attrs.

Definition appendRustType (name : string) (attrs : FieldAttributes) : result FieldAttributes :=
  let attrs :=
    set_rustSafeName (if String.eqb name "type" then "r#" ++ name else name) attrs in
  attrs <- base_type attrs ;;
  Ok (name_override name attrs).

Definition lower_fields (ignored : list string)
    (modelDescriptor : list (string * FieldAttributes))
  : result (list (string * FieldAttributes)) :=
  let entries := filter (fun e => negb (mem (fst e) ignored)) modelDescriptor in
  mapM (fun e => attrs <- appendRustType (fst e) (snd e) ;; Ok (fst e, attrs)) entries.

(** [new Set(...)]: the distinct elements, in the order of first insertion. *)
Definition Set_of (l : list string) : list string :=
  fold_left (fun acc x => if mem x acc then acc else (acc ++ [x])%list) l nil.

Section Generator.
Variable fs : string -> option string.
Variable YAML_parse : string -> result (list (string * FieldAttributes)).

Definition generateMqttEntityModel (name docFile : string) : result MqttEntity :=
  docContent <- readFileSync fs docFile ;;
  match exec re_configuration docContent with
  | None => Throw TypeError
  | Some modelDescriptorYaml =>
      modelDescriptor <- YAML_parse (group_text 1 modelDescriptorYaml) ;;
      entries <- lower_fields IGNORED_ATTRS modelDescriptor ;;
      Ok (mkEntity name docContent
            (Set_of
               (flat_map (fun e => match import (snd e) with
                                   | Some (String c i) => [String c i]
                                   | _ => nil
                                   end) entries))
            (Object_fromEntries entries))
  end.
End Generator.

End EntityVariant.

(** ** generator/src/device-class.ts *)

Module DeviceClass.

Record EnumValue : Type := mkEnumValue {
  value : string;
  description : string }.

Record DeviceClassesEnumModel : Type := mkEnumModel {
  name : string;
  values : list EnumValue }.

(** /^###* Device Class(?:es)?(G)/gim, the group G being [^]*; the i flag
    bears on the letters only *)
Definition re_heading : regex :=
  Seq BolM
    (Seq (Lit "##")
       (Seq (Star (is_char "#"))
          (Seq (LitI " Device Class")
             (Seq (Opt (LitI "es")) (Group 1 (Star any_char)))))).

(** /^###*[^]*/gm *)
Definition re_next_heading : regex :=
  Seq BolM (Seq (Lit "##") (Seq (Star (is_char "#")) (Star any_char))).

(** /- (?<name>G): (?<description>G)/gm, each group G being .* *)
Definition re_bullet : regex :=
  Seq (Lit "- ")
    (Seq (Group 1 (Star dot)) (Seq (Lit ": ") (Group 2 (Star dot)))).

(** /[^\w]/g *)
Definition re_non_word : regex := Cls (not_class word_char).

Definition enum_of_line (line : string) : option EnumValue :=
  match exec re_bullet line with
  | Some mt =>
      Some (mkEnumValue
              (replaceAll re_non_word (with_text EmptyString) (group_text 1 mt))
              (group_text 2 mt))
  | None => None
  end.

(** The scanner on the text of the document. *)
Definition enums_of_text (name docContent : string) : result DeviceClassesEnumModel :=
  match exec re_heading docContent with
  | None => Throw TypeError          (* exec(...)[1] on null *)
  | Some mt =>
      let docEnumValuesParagraph :=
        replaceAll re_next_heading (with_text EmptyString) (group_text 1 mt) in
      let enumValues :=
        flat_map (fun line => match enum_of_line line with
                              | Some v => [v]
                              | None => nil
                              end)
          (split_on LF docEnumValuesParagraph) in
      Ok (mkEnumModel name enumValues)
  end.

Definition extractDeviceClassesEnums (fs : string -> option string)
    (name docFile : string) : result DeviceClassesEnumModel :=
  docContent <- readFileSync fs docFile ;;
  enums_of_text name docContent.

End DeviceClass.

(** ** generator/src/index.ts: the helpers of the templates *)

Module Index.

(** The helper "comment": [text?.replaceAll("\n", "\n/// ")]. *)
Definition comment (text : option string) : option string :=
  match text with
  | None => None
  | Some text => Some (replaceAll (Lit nl) (with_text (nl ++ "/// ")) text)
  end.

End Index.

(** * Vocabulary of the statements *)

(** What the lowering of the children of a node yields: entry by entry,
    the name of the child and the lowering of the child. *)
Definition lowered (children : list (string * OpenApi.Property))
    (entries : list (string * value)) : Prop :=
  Forall2
    (fun c e => fst e = fst c /\ OpenApi.toOpenapiObjectPropertyA (snd c) = Ok (snd e))
    children entries.

(** Two records with the same decoded fields: [appendRustType] touches the
    fields it adds only. *)
Definition same_source (a a' : FieldAttributes) : Prop :=
  description a' = description a /\ type a' = type a /\ keys a' = keys a.

(** The character in front of the position reached after a text. *)
Fixpoint last_char (prev : option ascii) (s : string) : option ascii :=
  match s with
  | EmptyString => prev
  | String c s' => last_char (Some c) s'
  end.

(** A match found after a text, seen from the start of that text. *)
Fixpoint prepend (pre : string) (mt : MatchResult) : MatchResult :=
  match pre with
  | EmptyString => mt
  | String c pre' => shift c (prepend pre' mt)
  end.

Definition is_some {A : Type} (o : option A) : bool :=
  match o with Some _ => true | None => false end.

(** The text up to the first line feed. *)
Fixpoint first_line (s : string) : string :=
  match s with
  | EmptyString => EmptyString
  | String c t => if Ascii.eqb c LF then EmptyString else String c (first_line t)
  end.

(** A text made of whole lines: empty, or ending with a line feed. *)
Fixpoint ends_line (s : string) : bool :=
  match s with
  | EmptyString => true
  | String c t =>
      match t with
      | EmptyString => Ascii.eqb c LF
      | String _ _ => ends_line t
      end
  end.

(** No character of a literal is matched by a line feed. *)
Fixpoint within_line (eq : ascii -> ascii -> bool) (w : string) : bool :=
  match w with
  | EmptyString => true
  | String a w' => negb (eq a LF) && within_line eq w'
  end.

(** Two continuations succeed together, one on a text and the other on
    its first line. *)
Definition line_sim {R : Type} (k kk : @cont R) : Prop :=
  forall p s c c', is_some (k p s c) = is_some (kk p (first_line s) c').

(** A pattern whose success at a position depends on the rest of the line
    only. *)
Definition line_local (r : regex) : Prop :=
  forall p s,
    is_some (match_here r p s) = is_some (match_here r p (first_line s)).

(** Every character of a text is of a class; a text does not start with a
    character of the class. *)
Fixpoint all_chars (q : ascii -> bool) (s : string) : bool :=
  match s with
  | EmptyString => true
  | String c t => q c && all_chars q t
  end.

Definition stops (q : ascii -> bool) (s : string) : bool :=
  match s with
  | EmptyString => true
  | String c _ => negb (q c)
  end.

(** * Sample documents and schemas *)

(** Attribute records in the shape of the corpus. *)
Definition scalar (d : string) (req : bool) (t : string) (df : value)
  : OpenApi.Property :=
  OpenApi.mkProperty (Some d) req (Some (TStr t)) None df.

Definition sample_device : OpenApi.Property :=
  OpenApi.mkProperty (Some "Information about the device.") false (Some (TStr "map"))
    (Some [ ("name", scalar "The name of the device." true "string" VUndefined);
            ("model", scalar "The model of the device." false "string" VUndefined);
            ("identifiers",
              OpenApi.mkProperty (Some "A list of IDs.") true (Some (TStr "list")) None
                VUndefined) ])
    VUndefined.

Definition sample_availability : OpenApi.Property :=
  OpenApi.mkProperty (Some "A list of MQTT topics.") false (Some (TStr "list"))
    (Some [ ("topic", scalar "An MQTT topic." true "string" VUndefined);
            ("payload_available", scalar "The payload." false "string" (VStr "online")) ])
    VUndefined.

(** A mapping declared with two names that are array indices, and the
    record that carries the object of that mapping. *)
Definition indexed_children : list (string * OpenApi.Property) :=
  [ ("b", scalar "B." true "string" VUndefined);
    ("2", scalar "Two." true "string" VUndefined);
    ("a", scalar "A." false "string" VUndefined);
    ("1", scalar "One." true "string" VUndefined) ].

Definition indexed_node : OpenApi.Property :=
  OpenApi.mkProperty (Some "Node.") false (Some (TStr "map"))
    (Some (own_entries indexed_children)) VUndefined.

(** A record with the tag "float", a tag that no case of the switch names. *)
Definition sample_step : OpenApi.Property :=
  scalar "Step value." true "float" VUndefined.

Definition sample_config : list (string * OpenApi.Property) :=
  [ ("availability", sample_availability);
    ("availability_topic", scalar "The MQTT topic." false "string" VUndefined);
    ("availability_mode", scalar "The mode." false "string" (VStr "latest"));
    ("availability_template", scalar "A template." false "template" VUndefined);
    ("device", sample_device);
    ("payload_available", scalar "The payload." false "string" (VStr "online"));
    ("payload_not_available", scalar "The payload." false "string" (VStr "offline"));
    ("state_topic", scalar "The state topic." true "string" VUndefined) ].

(** A document of plain YAML with no sentinel at all, and the decoder and
    the printer at that document. *)
Definition plain_doc : string :=
  lines [ "state_topic:";
          "  description: The MQTT topic.";
          "  required: true";
          "  type: string" ].

Definition plain_fs (p : string) : option string :=
  if String.eqb p "docs/plain.mqtt.markdown" then Some plain_doc else None.

Definition plain_load (text : string) : result (list (string * OpenApi.Property)) :=
  if String.eqb text plain_doc
  then Ok [ ("state_topic", scalar "The MQTT topic." true "string" VUndefined) ]
  else Throw DecodeError.

Definition plain_dump (v : value) : string := lines [ "type: object" ].

(** A document with two configuration blocks. *)
Definition two_blocks : string :=
  lines [ "intro";
          OPEN; "first:"; CLOSE;
          "between";
          OPEN; "second:"; CLOSE;
          "outro" ].

(** A document of the corpus, cut down: its decoded schema has a [device]
    mapping, a list of options and a device class. *)
Definition select_descriptor : list (string * FieldAttributes) :=
  [ ("command_topic", field "The MQTT topic to publish commands." true (TStr "string") None);
    ("device", field "Information about the device." false (TStr "map") (Some [ "name" ]));
    ("options", field "List of options that can be selected." true (TStr "list") None);
    ("device_class",
      field "The [type/class](/integrations/sensor/#device-class) of the sensor." false
        (TStr "device_class") None);
    ("qos", field "The maximum QoS level." false (TStr "integer") None) ].

Definition select_doc : string :=
  lines [ "---"; "title: MQTT Select"; "---"; OPEN; "command_topic: ..."; CLOSE; "outro" ].

Definition select_fs (p : string) : option string :=
  if String.eqb p "select.mqtt.markdown" then Some select_doc else None.

Definition select_parse (text : string) : result (list (string * FieldAttributes)) :=
  if String.eqb text (nl ++ "command_topic: ..." ++ nl)
  then Ok select_descriptor
  else Throw DecodeError.

(** A device class described without the documentation anchor. *)
Definition plain_device_class : FieldAttributes :=
  field "Sets the class of the device, changing the device state and icon." false
    (TStr "string") None.

(** The section of the device-class example: heading, two bullet lines,
    next heading. *)
Definition bullet_lines : string :=
  "- `motion`: Motion detected." ++ nl ++ "- `door`: Door opened." ++ nl.

Definition bullets : string := nl ++ bullet_lines.

Definition example_section : string :=
  "### Device Class" ++ bullets ++ "### Other Section".

Definition example_values : list DeviceClass.EnumValue :=
  [ DeviceClass.mkEnumValue "motion" "Motion detected.";
    DeviceClass.mkEnumValue "door" "Door opened." ].

Definition example_doc : string :=
  lines [ "### Device Class";
          "- `motion`: Motion detected.";
          "- `door`: Door opened.";
          "### Other Section";
          "ignored" ].

Definition example_front : string :=
  lines [ "---"; "title: Binary sensor"; "---"; "## Configuration"; "Some text." ].

Definition example_fs (p : string) : option string :=
  if String.eqb p "binary_sensor.markdown" then Some example_doc
  else if String.eqb p "sensor.markdown" then Some (example_front ++ example_doc)
  else None.

(** * Vocabulary of the further properties *)

(** Every object node that the lowering visits has its [keys]. *)
Fixpoint keyed (p : OpenApi.Property) : bool :=
  match OpenApi.type p with
  | None =>
      match OpenApi.keys p with
      | Some children => forallb (fun e => keyed (snd e)) children
      | None => false
      end
  | Some (TStr t) =>
      if String.eqb t "map" then
        match OpenApi.keys p with
        | Some children => forallb (fun e => keyed (snd e)) children
        | None => false
        end
      else if String.eqb t "list" then
        match OpenApi.keys p with
        | Some children => forallb (fun e => keyed (snd e)) children
        | None => true
        end
      else true
  | Some (TArr _) => true
  end.

(** The separator that closes the front matter of a document. *)
Definition FRONT_MATTER_END : string := nl ++ "---" ++ nl.

(** A text with a mark in front of each of its lines, a line starting at
    the start of the text and after each line terminator. *)
Fixpoint prefix_lines (mark : string) (prev : option ascii) (s : string) : string :=
  (if at_line_start prev then mark else EmptyString) ++
  match s with
  | EmptyString => EmptyString
  | String c t => String c (prefix_lines mark (Some c) t)
  end.


(** The identifier a field name is rendered as. *)
Definition safe_name (name : string) : string :=
  if String.eqb name "type" then "r#type" else name.

(** Pascal case in one pass over the text: an underscore is dropped and
    starts a word, any other character that is no word character is kept
    and starts a word, the first character of a word goes to upper case
    and the others to lower case. *)
Fixpoint pascal (first : bool) (s : string) : string :=
  match s with
  | EmptyString => EmptyString
  | String c t =>
      if Ascii.eqb c "_" then pascal true t
      else if word_char c
           then String (if first then toUpperChar c else toLowerChar c) (pascal false t)
           else String c (pascal true t)
  end.

(** The same on a text that is not split at underscores: each run of word
    characters is one word. *)
Fixpoint capitalized (first : bool) (s : string) : string :=
  match s with
  | EmptyString => EmptyString
  | String c t =>
      if word_char c
      then String (if first then toUpperChar c else toLowerChar c) (capitalized false t)
      else String c (capitalized true t)
  end.

(** The characters of a class, in order. *)
Fixpoint filter_chars (q : ascii -> bool) (s : string) : string :=
  match s with
  | EmptyString => EmptyString
  | String c t => if q c then String c (filter_chars q t) else filter_chars q t
  end.

(** No line of a text starts with "##"; [start] tells whether the text
    starts at the start of a line. *)
Fixpoint heading_free (start : bool) (s : string) : bool :=
  match s with
  | EmptyString => true
  | String c t =>
      negb (start && starts_with "##" s) &&
      heading_free (Ascii.eqb c LF || Ascii.eqb c CR) t
  end.

(** * Properties *)

(** ** Ordered mappings *)

Lemma mem_In (x : string) (l : list string) : mem x l = true <-> In x l.
Proof.
  unfold mem. rewrite existsb_exists. split.
  - intros [y [Hy Heq]]. apply String.eqb_eq in Heq. now subst.
  - intros H. exists x. split; [assumption | apply String.eqb_refl].
Qed.

Lemma distinct_NoDup (l : list string) : distinct l = true -> NoDup l.
Proof.
  induction l as [|x tl IH]; simpl; intros H.
  - constructor.
  - apply andb_true_iff in H as [Hx Htl]. constructor.
    + intros Hin. apply mem_In in Hin. rewrite Hin in Hx. discriminate.
    + now apply IH.
Qed.

Lemma names_app {V : Type} (a b : list (string * V)) :
  names (a ++ b)%list = (names a ++ names b)%list.
Proof. unfold names. apply map_app. Qed.

Lemma set_fresh {V : Type} (o : list (string * V)) (n : string) (v : V) :
  ~ In n (names o) -> set o n v = (o ++ [(n, v)])%list.
Proof.
  induction o as [|[k w] tl IH]; simpl; intros Hn.
  - reflexivity.
  - destruct (String.eqb_spec k n) as [->|Hne].
    + exfalso. apply Hn. now left.
    + rewrite IH; [reflexivity | intros Hin; apply Hn; now right].
Qed.

Lemma fold_set_fresh {V : Type} (l acc : list (string * V)) :
  NoDup (names (acc ++ l)%list) ->
  fold_left (fun o e => set o (fst e) (snd e)) l acc = (acc ++ l)%list.
Proof.
  revert acc. induction l as [|[n v] tl IH]; intros acc Hnd; simpl.
  - now rewrite app_nil_r.
  - rewrite set_fresh.
    + rewrite IH; rewrite <- app_assoc; [reflexivity | exact Hnd].
    + rewrite names_app in Hnd. simpl in Hnd.
      apply NoDup_remove_2 in Hnd. intros Hin. apply Hnd.
      apply in_or_app. now left.
Qed.

Lemma Object_fromEntries_distinct {V : Type} (l : list (string * V)) :
  NoDup (names l) -> Object_fromEntries l = l.
Proof. intros H. unfold Object_fromEntries. now rewrite fold_set_fresh. Qed.

Lemma mapM_total {A B : Type} (f : A -> result B) (l : list A) :
  Forall (fun a => exists b, f a = Ok b) l ->
  exists bs, mapM f l = Ok bs /\ Forall2 (fun a b => f a = Ok b) l bs.
Proof.
  induction 1 as [|a tl [b Hb] _ [bs [Hbs HF]]]; simpl.
  - exists nil. split; [reflexivity | constructor].
  - exists (b :: bs). rewrite Hb, Hbs. split; [reflexivity | now constructor].
Qed.

(** ** The OpenAPI lowering *)

Section OpenApiFacts.
Import OpenApi.

(** Induction over an attribute record and the records below it. *)
Lemma Property_nested_ind (P : Property -> Prop) :
  (forall d r t k df,
      (forall l, k = Some l -> Forall (fun e => P (snd e)) l) ->
      P (mkProperty d r t k df)) ->
  forall p, P p.
Proof.
  intros H. fix IH 1. intros [d r t k df]. apply H.
  destruct k as [l0|]; intros l Hl; [|discriminate].
  injection Hl as <-.
  induction l0 as [|[n c] tl IHl]; constructor.
  - apply IH.
  - exact IHl.
Qed.

(** The switch of [toOpenapiObjectPropertyA], case by case. *)
Lemma lowering_cases (p : Property) :
  toOpenapiObjectPropertyA p =
  match type p with
  | None => toOpenapiObjectProperty p
  | Some (TStr t) =>
      if String.eqb t "map" then toOpenapiObjectProperty p
      else if String.eqb t "list" then toOpenapiListProperty p
      else if mem t string_tags then Ok (toOpenapiStringProperty p)
      else Ok VUndefined
  | Some (TArr _) => Ok VUndefined
  end.
Proof. destruct p; reflexivity. Qed.

Lemma lowered_names children entries :
  lowered children entries -> names entries = names children.
Proof.
  induction 1 as [|c e cs es [Hn _] _ IH]; simpl; [reflexivity|].
  now rewrite Hn, IH.
Qed.

Lemma lower_entries_total (children : list (string * Property)) :
  NoDup (names children) ->
  Forall (fun e => exists v, toOpenapiObjectPropertyA (snd e) = Ok v) children ->
  exists entries,
    lower_entries toOpenapiObjectPropertyA children = Ok entries /\
    lowered children entries.
Proof.
  intros Hnd Hall. unfold lower_entries.
  destruct (mapM_total
              (fun e => match toOpenapiObjectPropertyA (snd e) with
                        | Ok v => Ok (fst e, v)
                        | Throw x => Throw x
                        end) children) as [es [Hes HF]].
  - eapply Forall_impl; [|exact Hall]. intros e [v Hv]. exists (fst e, v).
    now rewrite Hv.
  - assert (Hl : lowered children es).
    { clear -HF. induction HF as [|c e cs es' Hce _ IH]; constructor; [|exact IH].
      destruct (toOpenapiObjectPropertyA (snd c)) as [v|x]; [|discriminate].
      injection Hce as <-. now split. }
    exists es. rewrite Hes. simpl. split; [|exact Hl].
    rewrite Object_fromEntries_distinct; [reflexivity|].
    now rewrite (lowered_names _ _ Hl).
Qed.

(** The children of a well-formed node are well formed, with distinct names. *)
Lemma well_formed_children (children : list (string * Property)) :
  distinct (names children) && forallb (fun e => well_formed (snd e)) children = true ->
  NoDup (names children) /\ Forall (fun e => well_formed (snd e) = true) children.
Proof.
  intros H. apply andb_true_iff in H as [Hd Hf]. split.
  - now apply distinct_NoDup.
  - apply Forall_forall. intros e He.
    rewrite forallb_forall in Hf. now apply Hf.
Qed.

Lemma well_formed_keys (p : Property) (children : list (string * Property)) :
  well_formed p = true -> keys p = Some children ->
  (type p = None \/ type p = Some (TStr "map") \/ type p = Some (TStr "list")) ->
  NoDup (names children) /\ Forall (fun e => well_formed (snd e) = true) children.
Proof.
  intros Hwf Hk Ht. apply well_formed_children.
  destruct p as [d r t k df]. simpl in *. subst k.
  destruct Ht as [->|[->| ->]]; simpl in Hwf; exact Hwf.
Qed.

(** A well-formed record is lowered without an exception. *)
Lemma lowering_total (p : Property) :
  well_formed p = true -> exists v, toOpenapiObjectPropertyA p = Ok v.
Proof.
  induction p as [d r t k df IH] using Property_nested_ind. intros Hwf.
  assert (Hkids : forall l, k = Some l ->
            distinct (names l) && forallb (fun e => well_formed (snd e)) l = true ->
            exists es, lower_entries toOpenapiObjectPropertyA l = Ok es).
  { intros l Hl Hc. apply well_formed_children in Hc as [Hnd Hall].
    destruct (lower_entries_total l Hnd) as [es [Hes _]]; [|now exists es].
    specialize (IH l Hl). rewrite Forall_forall in *.
    intros e He. apply IH; [exact He | now apply Hall]. }
  rewrite lowering_cases. unfold toOpenapiObjectProperty, toOpenapiListProperty,
    objectProperty, listProperty. simpl in *.
  destruct t as [[t|l]|].
  - destruct (String.eqb t "map").
    + destruct k as [l|]; [|discriminate].
      destruct (Hkids l eq_refl Hwf) as [es ->]. simpl. eauto.
    + destruct (String.eqb t "list").
      * destruct k as [l|]; [|eauto].
        destruct (Hkids l eq_refl Hwf) as [es ->]. simpl. eauto.
      * match goal with |- context [if ?b then _ else _] => destruct b end; eauto.
  - eauto.
  - destruct k as [l|]; [|discriminate].
    destruct (Hkids l eq_refl Hwf) as [es ->]. simpl. eauto.
Qed.

Lemma lower_entries_well_formed (p : Property) (children : list (string * Property)) :
  well_formed p = true -> keys p = Some children ->
  (type p = None \/ type p = Some (TStr "map") \/ type p = Some (TStr "list")) ->
  exists entries,
    lower_entries toOpenapiObjectPropertyA children = Ok entries /\
    lowered children entries.
Proof.
  intros Hwf Hk Ht.
  destruct (well_formed_keys p children Hwf Hk Ht) as [Hnd Hall].
  apply lower_entries_total; [exact Hnd|].
  eapply Forall_impl; [|exact Hall]. intros e. apply lowering_total.
Qed.

Lemma required_names (children : list (string * Property)) :
  map (fun e => VStr (fst e)) (filter (fun e => required (snd e)) children) =
  map VStr (names (filter (fun e => required (snd e)) children)).
Proof. unfold names. now rewrite map_map. Qed.

Lemma own_entries_plain {V : Type} (created : list (string * V)) :
  forallb (fun n => negb (is_array_index n)) (names created) = true ->
  own_entries created = created.
Proof.
  intros H. unfold own_entries.
  assert (Hs : fold_right (fun e sorted => match array_index (fst e) with
                                           | Some i => insert_index i e sorted
                                           | None => sorted
                                           end) nil created = nil /\
               filter (fun e => negb (is_array_index (fst e))) created = created).
  { induction created as [|[n v] tl IH]; [split; reflexivity|].
    cbn [names map fst forallb] in H. apply andb_true_iff in H as [Hn Htl].
    destruct (IH Htl) as [IH1 IH2]. cbn [fold_right filter fst].
    rewrite Hn, IH1, IH2. unfold is_array_index in Hn.
    destruct (array_index n); [discriminate Hn|]. split; reflexivity. }
  destruct Hs as [-> ->]. reflexivity.
Qed.

(** C1, the claim as stated fails: the children of a record are the
    entries of an object, and an object enumerates the names that are array
    indices first, in ascending order.  For a mapping declared with the
    names b, 2, a, 1 (b, 2 and 1 required) the node lists 1, 2, b under
    [required] and has the keys 1, 2, b, a under [properties]; the order of
    the declaration would be b, 2, 1 and b, 2, a, 1. *)
Lemma declaration_order_not_kept :
  names (own_entries indexed_children) = [ "1"; "2"; "b"; "a" ] /\
  toOpenapiObjectProperty indexed_node =
    Ok (VObj
          [ ("type", VStr "object");
            ("description", VStr "Node.");
            ("required", VArr [ VStr "1"; VStr "2"; VStr "b" ]);
            ("properties",
              VObj [ ("1", VObj [ ("description", VStr "One."); ("type", VStr "string") ]);
                     ("2", VObj [ ("description", VStr "Two."); ("type", VStr "string") ]);
                     ("b", VObj [ ("description", VStr "B."); ("type", VStr "string") ]);
                     ("a", VObj [ ("description", VStr "A."); ("type", VStr "string") ]) ]) ]) /\
  names (filter (fun e => required (snd e)) indexed_children) = [ "b"; "2"; "1" ] /\
  names indexed_children = [ "b"; "2"; "a"; "1" ].
Proof. repeat split; vm_compute; reflexivity. Qed.

(** C1, amended: for an attribute record whose type tag is absent or "map"
    (and that is well formed: it has its [keys], as the interface
    [ObjectProperty] says), the keys being the object of a mapping declared
    as [declared], [toOpenapiObjectProperty] returns an object node whose
    [required] list is the names of the children with [required == true]
    and whose [properties] mapping has exactly the child names as keys,
    each bound to the lowering of that child, both in the order in which
    the object enumerates its entries: the names that are array indices
    first, in ascending order, then the others as declared.  When no child
    name is an array index that order is the order of the declaration. *)
Theorem object_node_required_and_properties (p : Property)
    (declared : list (string * Property)) :
  type p = None \/ type p = Some (TStr "map") ->
  well_formed p = true ->
  keys p = Some (own_entries declared) ->
  exists properties,
    toOpenapiObjectPropertyA p = toOpenapiObjectProperty p /\
    toOpenapiObjectProperty p =
      Ok (VObj
            [ ("type", VStr "object");
              ("description", VStr (describe p));
              ("required",
                VArr (map VStr (names (filter (fun e => required (snd e))
                                         (own_entries declared)))));
              ("properties", VObj properties) ]) /\
    names properties = names (own_entries declared) /\
    lowered (own_entries declared) properties /\
    (forallb (fun n => negb (is_array_index n)) (names declared) = true ->
     own_entries declared = declared /\
     names properties = names declared /\
     lowered declared properties).
Proof.
  intros Ht Hwf Hk.
  destruct (lower_entries_well_formed p _ Hwf Hk) as [es [Hes Hl]].
  { destruct Ht; auto. }
  exists es. split; [|split; [|split; [|split]]].
  - rewrite lowering_cases. destruct Ht as [->| ->]; reflexivity.
  - unfold toOpenapiObjectProperty, objectProperty. rewrite Hk, Hes. simpl.
    now rewrite required_names.
  - now apply lowered_names.
  - exact Hl.
  - intros Hp. pose proof (own_entries_plain declared Hp) as E.
    rewrite E in Hl. split; [exact E|]. split; [now apply lowered_names|exact Hl].
Qed.

Lemma object_node_required_and_properties_witness :
  exists properties,
    toOpenapiObjectPropertyA sample_device = toOpenapiObjectProperty sample_device /\
    toOpenapiObjectProperty sample_device =
      Ok (VObj
            [ ("type", VStr "object");
              ("description", VStr "Information about the device.");
              ("required", VArr [ VStr "name"; VStr "identifiers" ]);
              ("properties", VObj properties) ]) /\
    names properties = [ "name"; "model"; "identifiers" ].
Proof.
  destruct (object_node_required_and_properties sample_device
              [ ("name", scalar "The name of the device." true "string" VUndefined);
                ("model", scalar "The model of the device." false "string" VUndefined);
                ("identifiers",
                  mkProperty (Some "A list of IDs.") true (Some (TStr "list")) None
                    VUndefined) ]
              (or_intror eq_refl) eq_refl eq_refl)
    as (properties & H1 & H2 & H3 & _).
  exists properties. split; [exact H1|]. split; [exact H2|exact H3].
Defined.

(** C2, the claim as stated fails: a record tagged "float" (a tag of the
    corpus that no [case] names) is lowered without any exception, to
    [undefined]; the object around it still lists the name under
    [required] and binds it, to [undefined], in [properties]. *)
Lemma unknown_tag_raises_nothing :
  known_tag (type sample_step) = false /\
  toOpenapiObjectPropertyA sample_step = Ok VUndefined /\
  (forall e, toOpenapiObjectPropertyA sample_step <> Throw e) /\
  toOpenapiObjectProperty
    (mkProperty None true (Some (TStr "map")) (Some [ ("step", sample_step) ]) VUndefined) =
    Ok (VObj
          [ ("type", VStr "object");
            ("description", VStr EmptyString);
            ("required", VArr [ VStr "step" ]);
            ("properties", VObj [ ("step", VUndefined) ]) ]).
Proof. repeat split; try reflexivity. intros e H. discriminate H. Qed.

(** C2, amended: for an attribute record whose type tag is none of absent,
    "map", "list", "device_class", "boolean", "integer", "template",
    "string", [toOpenapiObjectPropertyA] raises no exception and returns
    [undefined]: no schema node of any kind is emitted for the record. *)
Theorem unknown_tag_lowers_to_undefined (p : Property) :
  known_tag (type p) = false ->
  toOpenapiObjectPropertyA p = Ok VUndefined.
Proof.
  intros H. rewrite lowering_cases. destruct (type p) as [[t|l]|].
  - change (String.eqb t "map" || (String.eqb t "list" || mem t string_tags) = false) in H.
    apply orb_false_iff in H as [-> H].
    apply orb_false_iff in H as [-> H].
    now rewrite H.
  - reflexivity.
  - discriminate.
Qed.

Lemma unknown_tag_lowers_to_undefined_witness :
  toOpenapiObjectPropertyA sample_step = Ok VUndefined.
Proof. apply (unknown_tag_lowers_to_undefined sample_step). reflexivity. Defined.

(** C4: for an attribute record tagged "list", [toOpenapiListProperty]
    returns, when [keys] is absent, exactly the object of the three members
    description (the synthesized one), type "array" and items
    [{type: "string"}]; when [keys] is present (the record being well
    formed), an array schema whose [items] is the bare mapping from each
    child name to the lowering of that child, with no [type] / [properties]
    wrapper around it. *)
Theorem list_node_items (p : Property) :
  type p = Some (TStr "list") ->
  well_formed p = true ->
  toOpenapiObjectPropertyA p = toOpenapiListProperty p /\
  (keys p = None ->
   toOpenapiListProperty p =
     Ok (VObj
           [ ("description", VStr (describe p));
             ("type", VStr "array");
             ("items", VObj [ ("type", VStr "string") ]) ])) /\
  (forall children, keys p = Some children ->
   exists items,
     toOpenapiListProperty p =
       Ok (VObj
             [ ("description", VStr (describe p));
               ("type", VStr "array");
               ("items", VObj items) ]) /\
     names items = names children /\
     lowered children items).
Proof.
  intros Ht Hwf. repeat split.
  - rewrite lowering_cases, Ht. reflexivity.
  - intros Hk. unfold toOpenapiListProperty, listProperty. now rewrite Hk.
  - intros children Hk.
    destruct (lower_entries_well_formed p children Hwf Hk) as [es [Hes Hl]]; [auto|].
    exists es. unfold toOpenapiListProperty, listProperty. rewrite Hk, Hes.
    repeat split; [now apply lowered_names | exact Hl].
Qed.

Lemma list_node_items_witness :
  toOpenapiListProperty (mkProperty (Some "Options.") true (Some (TStr "list")) None VUndefined) =
    Ok (VObj
          [ ("description", VStr "Options.");
            ("type", VStr "array");
            ("items", VObj [ ("type", VStr "string") ]) ]) /\
  exists items,
    toOpenapiListProperty sample_availability =
      Ok (VObj
            [ ("description", VStr (describe sample_availability));
              ("type", VStr "array");
              ("items", VObj items) ]) /\
    names items = [ "topic"; "payload_available" ] /\
    lowered [ ("topic", scalar "An MQTT topic." true "string" VUndefined);
              ("payload_available", scalar "The payload." false "string" (VStr "online")) ]
      items.
Proof.
  split.
  - apply (proj1 (proj2 (list_node_items
             (mkProperty (Some "Options.") true (Some (TStr "list")) None VUndefined)
             eq_refl eq_refl))).
    reflexivity.
  - exact (proj2 (proj2 (list_node_items sample_availability eq_refl eq_refl))
             [ ("topic", scalar "An MQTT topic." true "string" VUndefined);
               ("payload_available", scalar "The payload." false "string" (VStr "online")) ]
             eq_refl).
Defined.

(** C5, the claim as stated fails: with an empty description and the
    truthy default "X" the synthesized description is "(Default: X)", the
    empty description being dropped like an absent one, and not the
    description followed by a space and the annotation. *)
Lemma empty_description_with_default :
  describe (scalar EmptyString false "string" (VStr "X")) = "(Default: X)" /\
  describe (scalar EmptyString false "string" (VStr "X")) <>
    EmptyString ++ " " ++ "(Default: X)".
Proof. split; [reflexivity|discriminate]. Qed.

(** C5, amended: the synthesized description.  With a non-empty
    description [D] and a truthy default [X] it is ["D (Default: X)"], [X]
    printed as a template literal prints it; with a description [D] and a
    falsy default (the empty string, [false], an absent one, ...) it is [D]
    itself; with no description or an empty one and a truthy default it is
    ["(Default: X)"] with nothing in front; with neither it is empty. *)
Theorem describe_default_annotation (p : Property) :
  (forall D, description p = Some D -> D <> EmptyString ->
     truthy (default p) = true ->
     describe p = D ++ " " ++ "(Default: " ++ ToString (default p) ++ ")") /\
  (forall D, description p = Some D ->
     truthy (default p) = false ->
     describe p = D) /\
  (forall D,
     description p = Some D ->
     default p = VStr EmptyString \/ default p = VBool false \/ default p = VUndefined ->
     describe p = D) /\
  (description p = None \/ description p = Some EmptyString ->
     truthy (default p) = true ->
     describe p = "(Default: " ++ ToString (default p) ++ ")") /\
  (description p = None ->
     truthy (default p) = false ->
     describe p = EmptyString) /\
  (forall X, default p = VStr X -> ToString (default p) = X) /\
  (forall X, default p = VNum X -> ToString (default p) = X).
Proof.
  assert (Hfalsy : forall D, description p = Some D ->
            truthy (default p) = false -> describe p = D).
  { intros D HD Hf. unfold describe. rewrite HD, Hf. now destruct D. }
  split; [|split; [|split; [|split; [|split; [|split]]]]].
  - intros D HD Hne Ht. unfold describe. rewrite HD, Ht.
    destruct D as [|c D']; [contradiction|]. reflexivity.
  - exact Hfalsy.
  - intros D HD [H|[H|H]]; apply Hfalsy; try exact HD; now rewrite H.
  - intros [HD|HD] Ht; unfold describe; now rewrite HD, Ht.
  - intros HD Hf. unfold describe. now rewrite HD, Hf.
  - intros X ->. reflexivity.
  - intros X ->. reflexivity.
Qed.

Lemma describe_default_annotation_witness :
  describe (scalar "The payload." false "string" (VStr "online")) =
    "The payload. (Default: online)" /\
  describe (scalar "The step." false "float" (VNum "0.5")) =
    "The step. (Default: 0.5)" /\
  describe (scalar "The payload." false "string" (VStr EmptyString)) = "The payload." /\
  describe (scalar "The payload." false "string" (VBool false)) = "The payload." /\
  describe (scalar "The count." false "integer" (VNum "0")) = "The count." /\
  describe (mkProperty None false (Some (TStr "boolean")) None (VBool true)) =
    "(Default: true)" /\
  describe (scalar EmptyString false "integer" (VNum "1e+21")) = "(Default: 1e+21)".
Proof.
  split; [|split; [|split; [|split; [|split; [|split]]]]].
  - exact (proj1 (describe_default_annotation
                    (scalar "The payload." false "string" (VStr "online")))
             "The payload." eq_refl ltac:(discriminate) eq_refl).
  - exact (proj1 (describe_default_annotation
                    (scalar "The step." false "float" (VNum "0.5")))
             "The step." eq_refl ltac:(discriminate) eq_refl).
  - exact (proj1 (proj2 (describe_default_annotation
                    (scalar "The payload." false "string" (VStr EmptyString))))
             "The payload." eq_refl eq_refl).
  - exact (proj1 (proj2 (proj2 (describe_default_annotation
                    (scalar "The payload." false "string" (VBool false)))))
             "The payload." eq_refl (or_intror (or_introl eq_refl))).
  - exact (proj1 (proj2 (describe_default_annotation
                    (scalar "The count." false "integer" (VNum "0"))))
             "The count." eq_refl eq_refl).
  - exact (proj1 (proj2 (proj2 (proj2 (describe_default_annotation
                    (mkProperty None false (Some (TStr "boolean")) None (VBool true))))))
             (or_introl eq_refl) eq_refl).
  - exact (proj1 (proj2 (proj2 (proj2 (describe_default_annotation
                    (scalar EmptyString false "integer" (VNum "1e+21"))))))
             (or_intror eq_refl) eq_refl).
Defined.

Lemma lowered_get config entries (n : string) :
  lowered config entries -> In n (names config) ->
  exists a v, In (n, a) config /\ get entries n = Some v /\
              toOpenapiObjectPropertyA a = Ok v.
Proof.
  induction 1 as [|[k a] [k' v] cs es [Hn Hv] _ IH]; simpl; intros Hin.
  - contradiction.
  - simpl in Hn, Hv. subst k'. destruct (String.eqb_spec k n) as [->|Hne].
    + exists a, v. repeat split; [now left | exact Hv].
    + destruct Hin as [Heq|Hin]; [contradiction|].
      destruct (IH Hin) as [a' [v' [Hi [Hg Hl]]]].
      exists a', v'. repeat split; [now right | exact Hg | exact Hl].
Qed.

Lemma lowered_In config entries (n : string) (v : value) :
  lowered config entries -> In (n, v) entries ->
  exists a, In (n, a) config /\ toOpenapiObjectPropertyA a = Ok v.
Proof.
  induction 1 as [|[k a] [k' v'] cs es [Hn Hv] _ IH]; simpl; intros Hin.
  - contradiction.
  - simpl in Hn, Hv. subst k'. destruct Hin as [Heq|Hin].
    + injection Heq as -> ->. exists a. split; [now left | exact Hv].
    + destruct (IH Hin) as [a' [Hi Hl]]. exists a'. split; [now right | exact Hl].
Qed.

Lemma names_filter {V : Type} (f : string -> bool) (l : list (string * V)) :
  names (filter (fun e => f (fst e)) l) = filter f (names l).
Proof.
  induction l as [|[n v] tl IH]; simpl; [reflexivity|].
  destruct (f n); simpl; now rewrite IH.
Qed.

(** C6: for a decoded schema (its names distinct, its records well formed)
    that contains the six properties availability, availability_mode,
    availability_topic, payload_available, payload_not_available and
    availability_template, [getAvailabilityModel] returns a [oneOf] of
    exactly two branches: the first is the [allOf] of the lowered
    [availability] and [availability_mode] schemas; the second is the
    mapping of exactly the four legacy names, in the relative order the
    schema has them, each bound to its lowered schema. *)
Theorem availability_projection
    (yaml_load : string -> result (list (string * Property)))
    (this : HomeAssistantConfiguration) (config : list (string * Property)) :
  yaml_load (source this) = Ok config ->
  distinct (names config) = true ->
  forallb (fun e => well_formed (snd e)) config = true ->
  (forall n,
     In n [ "availability"; "availability_mode"; "availability_topic";
            "payload_available"; "payload_not_available"; "availability_template" ] ->
     In n (names config)) ->
  exists availability availability_mode legacy,
    getAvailabilityModel yaml_load this =
      Ok (VObj
            [ ("oneOf",
                VArr [ VObj [ ("allOf", VArr [ availability; availability_mode ]) ];
                       VObj legacy ]) ]) /\
    (exists a, In ("availability", a) config /\
               toOpenapiObjectPropertyA a = Ok availability) /\
    (exists a, In ("availability_mode", a) config /\
               toOpenapiObjectPropertyA a = Ok availability_mode) /\
    names legacy =
      filter (fun n => mem n [ "availability_topic"; "payload_available";
                               "payload_not_available"; "availability_template" ])
        (names config) /\
    Permutation (names legacy)
      [ "availability_topic"; "payload_available"; "payload_not_available";
        "availability_template" ] /\
    (forall n v, In (n, v) legacy ->
       exists a, In (n, a) config /\ toOpenapiObjectPropertyA a = Ok v).
Proof.
  intros Hload Hd Hwf Hsix.
  change [ "availability_topic"; "payload_available"; "payload_not_available";
           "availability_template" ] with AVAILABILITY_PROPERTIES.
  set (root := mkProperty (cfg_description this) true (Some (TStr "map"))
                 (Some config) VUndefined).
  assert (Hroot : well_formed root = true).
  { simpl. now rewrite Hd, Hwf. }
  destruct (lower_entries_well_formed root config Hroot eq_refl) as [es [Hes Hl]];
    [auto|].
  pose proof (lowered_names _ _ Hl) as Hnames.
  pose proof (distinct_NoDup _ Hd) as Hnd.
  destruct (lowered_get config es "availability" Hl) as [a1 [v1 [Hi1 [Hg1 Hl1]]]].
  { apply Hsix. simpl. auto. }
  destruct (lowered_get config es "availability_mode" Hl) as [a2 [v2 [Hi2 [Hg2 Hl2]]]].
  { apply Hsix. simpl. auto. }
  set (legacy := filter (fun e => mem (fst e) AVAILABILITY_PROPERTIES) es).
  assert (Hlegacy : names legacy =
                    filter (fun n => mem n AVAILABILITY_PROPERTIES) (names config)).
  { unfold legacy.
    rewrite (names_filter (fun n => mem n AVAILABILITY_PROPERTIES) es).
    now rewrite Hnames. }
  assert (Hndl : NoDup (names legacy)).
  { rewrite Hlegacy. now apply NoDup_filter. }
  exists v1, v2, legacy. split; [|split; [|split; [|split; [|split]]]].
  - unfold getAvailabilityModel, toOpenapiObjectModel. rewrite Hload.
    cbn [bind]. fold root. unfold toOpenapiObjectProperty, objectProperty.
    change (keys root) with (Some config). cbv beta iota. rewrite Hes. simpl.
    unfold prop. rewrite Hg1, Hg2. fold legacy.
    now rewrite Object_fromEntries_distinct.
  - now exists a1.
  - now exists a2.
  - exact Hlegacy.
  - apply NoDup_Permutation; [exact Hndl | |].
    + apply distinct_NoDup. reflexivity.
    + intros n. rewrite Hlegacy, filter_In, mem_In. split.
      * now intros [_ H].
      * intros H. split; [|exact H]. apply Hsix. now do 2 right.
  - intros n v Hin. apply (lowered_In config es n v Hl).
    unfold legacy in Hin. now apply filter_In in Hin as [Hin _].
Qed.

Lemma availability_projection_witness :
  exists availability availability_mode legacy,
    getAvailabilityModel (fun _ => Ok sample_config)
      (mkConfiguration "sensor.mqtt.markdown" "sensor" None EmptyString) =
      Ok (VObj
            [ ("oneOf",
                VArr [ VObj [ ("allOf", VArr [ availability; availability_mode ]) ];
                       VObj legacy ]) ]) /\
    (exists a, In ("availability", a) sample_config /\
               toOpenapiObjectPropertyA a = Ok availability) /\
    (exists a, In ("availability_mode", a) sample_config /\
               toOpenapiObjectPropertyA a = Ok availability_mode) /\
    names legacy =
      [ "availability_topic"; "availability_template"; "payload_available";
        "payload_not_available" ] /\
    Permutation (names legacy)
      [ "availability_topic"; "payload_available"; "payload_not_available";
        "availability_template" ] /\
    (forall n v, In (n, v) legacy ->
       exists a, In (n, a) sample_config /\ toOpenapiObjectPropertyA a = Ok v).
Proof.
  apply (availability_projection (fun _ => Ok sample_config)
           (mkConfiguration "sensor.mqtt.markdown" "sensor" None EmptyString)
           sample_config);
    [reflexivity | reflexivity | reflexivity |].
  intros n Hn. simpl in Hn. simpl.
  repeat (destruct Hn as [<-|Hn]; [tauto|]). contradiction.
Defined.

End OpenApiFacts.

(** ** Strings and the matcher *)

Lemma append_assoc (a b c : string) : (a ++ b) ++ c = a ++ (b ++ c).
Proof. induction a as [|x a IH]; simpl; [reflexivity | now rewrite IH]. Qed.

Lemma append_nil_r (a : string) : a ++ EmptyString = a.
Proof. induction a as [|x a IH]; simpl; [reflexivity | now rewrite IH]. Qed.

Lemma length_append (a b : string) : length (a ++ b) = length a + length b.
Proof. induction a as [|x a IH]; simpl; [reflexivity | now rewrite IH]. Qed.

Lemma substring_prefix (a b : string) : substring 0 (length a) (a ++ b) = a.
Proof.
  induction a as [|x a IH]; simpl.
  - now destruct b.
  - now rewrite IH.
Qed.

(** The text taken in front of a suffix. *)
Lemma taken_append (a b : string) : taken (a ++ b) b = a.
Proof.
  unfold taken. rewrite length_append.
  replace (length a + length b - length b) with (length a) by lia.
  apply substring_prefix.
Qed.

Lemma taken_all (a : string) : taken a EmptyString = a.
Proof. rewrite <- (append_nil_r a) at 1. apply taken_append. Qed.

Lemma starts_with_append (w b : string) : starts_with w (w ++ b) = true.
Proof.
  induction w as [|x w IH]; simpl; [reflexivity|].
  now rewrite Ascii.eqb_refl, IH.
Qed.

Lemma indexOf_here (w s : string) :
  starts_with w s = true -> indexOf w s = Some 0.
Proof. intros H. destruct s; simpl; now rewrite H. Qed.

Lemma includes_append (a w b : string) : includes (a ++ w ++ b) w = true.
Proof.
  unfold includes.
  assert (H : indexOf w (a ++ w ++ b) <> None).
  { induction a as [|x a IH].
    - simpl. rewrite indexOf_here; [discriminate | apply starts_with_append].
    - simpl. destruct (starts_with w (String x (a ++ w ++ b))); [discriminate|].
      destruct (indexOf w (a ++ w ++ b)); [discriminate | contradiction]. }
  now destruct (indexOf w (a ++ w ++ b)).
Qed.

Section MatcherFacts.
Context {R : Type}.
Implicit Types (k : @cont R) (prev : option ascii) (s w : string) (cs : caps).

(** A literal matches exactly the text that starts with it. *)
Lemma lit_m_starts w prev s cs k :
  lit_m Ascii.eqb w prev s cs k =
  if starts_with w s
  then lit_m Ascii.eqb w prev s cs k
  else None.
Proof.
  revert prev s. induction w as [|a w IH]; simpl; intros prev s; [reflexivity|].
  destruct s as [|b s]; [reflexivity|].
  destruct (Ascii.eqb a b); simpl; [apply IH | reflexivity].
Qed.

Lemma lit_m_miss w prev s cs k :
  starts_with w s = false -> lit_m Ascii.eqb w prev s cs k = None.
Proof. intros H. rewrite lit_m_starts. now rewrite H. Qed.

Lemma lit_m_exact w prev s cs k x :
  lit_m Ascii.eqb w prev s cs k = Some x ->
  exists s' prev', s = w ++ s' /\ k prev' s' cs = Some x.
Proof.
  revert prev s. induction w as [|c w IH]; simpl; intros prev s H.
  - exists s, prev. auto.
  - destruct s as [|b s]; [discriminate|].
    destruct (Ascii.eqb_spec c b) as [->|]; [|discriminate].
    destruct (IH _ _ H) as [s' [prev' [-> Hk]]].
    exists s', prev'. auto.
Qed.

Lemma star_m_sound p prev s cs k x :
  star_m p prev s cs k = Some x ->
  exists a s' prev', s = a ++ s' /\ k prev' s' cs = Some x.
Proof.
  revert prev. induction s as [|c s IH]; simpl; intros prev H.
  - exists EmptyString, EmptyString, prev. auto.
  - destruct (p c).
    + destruct (star_m p (Some c) s cs k) as [y|] eqn:E.
      * injection H as <-. destruct (IH _ E) as [a [s' [prev' [-> Hk]]]].
        exists (String c a), s', prev'. auto.
      * exists EmptyString, (String c s), prev. auto.
    + exists EmptyString, (String c s), prev. auto.
Qed.

Lemma lazy_m_sound p prev s cs k x :
  lazy_m p prev s cs k = Some x ->
  exists a s' prev', s = a ++ s' /\ k prev' s' cs = Some x.
Proof.
  revert prev. induction s as [|c s IH]; simpl; intros prev H.
  - destruct (k prev EmptyString cs) eqn:E; [|discriminate].
    exists EmptyString, EmptyString, prev. split; [reflexivity|]. now rewrite E.
  - destruct (k prev (String c s) cs) eqn:E.
    + exists EmptyString, (String c s), prev. split; [reflexivity|]. now rewrite E.
    + destruct (p c); [|discriminate].
      destruct (IH _ H) as [a [s' [prev' [-> Hk]]]].
      exists (String c a), s', prev'. auto.
Qed.
End MatcherFacts.

Lemma before_prepend (pre : string) (mt : MatchResult) :
  before (prepend pre mt) = pre ++ before mt.
Proof. induction pre as [|c pre IH]; simpl; [reflexivity | now rewrite IH]. Qed.

(** A match found by [search] is a match at some position of the text. *)
Lemma search_sound (r : regex) (prev : option ascii) (s : string) (mt : MatchResult) :
  search r prev s = Some mt ->
  exists pre s1 prev1 mt1,
    s = pre ++ s1 /\ match_here r prev1 s1 = Some mt1 /\ mt = prepend pre mt1.
Proof.
  revert prev mt. induction s as [|c s IH]; simpl; intros prev mt H.
  - destruct (match_here r prev EmptyString) as [m0|] eqn:E; [|discriminate].
    injection H as <-. exists EmptyString, EmptyString, prev, m0. auto.
  - destruct (match_here r prev (String c s)) as [m0|] eqn:E.
    + injection H as <-. exists EmptyString, (String c s), prev, m0. auto.
    + destruct (search r (Some c) s) as [m1|] eqn:E1; [|discriminate].
      injection H as <-.
      destruct (IH _ _ E1) as [pre [s1 [prev1 [mt1 [-> [Hm ->]]]]]].
      exists (String c pre), s1, prev1, mt1. auto.
Qed.

(** The matcher on small inputs: greedy and lazy stars, the leftmost
    match, the multiline anchor, replacement of every match. *)

Example exec_greedy :
  option_map (group_text 1)
    (exec (Seq (Lit "<") (Seq (Group 1 (Star any_char)) (Lit ">"))) "a<b>c<d>e") =
  Some "b>c<d".
Proof. reflexivity. Qed.

Example exec_lazy :
  option_map (group_text 1)
    (exec (Seq (Lit "<") (Seq (Group 1 (StarLazy any_char)) (Lit ">"))) "a<b>c<d>e") =
  Some "b".
Proof. reflexivity. Qed.

Example replace_line_starts :
  replaceAll BolM (with_text "# ") (lines [ "ab"; "cd" ]) =
  "# ab" ++ nl ++ "# cd" ++ nl ++ "# ".
Proof. reflexivity. Qed.

Example replace_non_word :
  replaceAll DeviceClass.re_non_word (with_text EmptyString) "`carbon_monoxide`" =
  "carbon_monoxide".
Proof. reflexivity. Qed.

Example bullet_last_colon :
  DeviceClass.enum_of_line "- **a-b**: x: y" =
  Some (DeviceClass.mkEnumValue "abx" "y").
Proof. reflexivity. Qed.

Example toPascalCase_binary_sensor : toPascalCase "binary_sensor" = "BinarySensor".
Proof. reflexivity. Qed.

Example configuration_name :
  replace OpenApi.re_suffix (with_text EmptyString)
    (replace OpenApi.re_dirname (with_text EmptyString)
       "/docs/source/_integrations/sensor.mqtt.markdown") = "sensor".
Proof. reflexivity. Qed.

Example escaped_identifier :
  option_map rustSafeName
    (match Entity.appendRustType "type" (field "The type." true (TStr "string") None) with
     | Ok a => Some a
     | Throw _ => None
     end) = Some (Some "r#type").
Proof. reflexivity. Qed.

(** ** Extraction of the configuration block *)

Lemma greedy_match_has_pair (doc : string) (mt : MatchResult) :
  exec Entity.re_configuration doc = Some mt ->
  exists a b c, doc = a ++ OPEN ++ b ++ CLOSE ++ c.
Proof.
  intros H. apply search_sound in H as (pre & s1 & prev1 & mt1 & -> & Hm & _).
  unfold match_here, Entity.re_configuration in Hm. cbn [m] in Hm.
  apply lit_m_exact in Hm as (s2 & p2 & -> & Hm).
  apply star_m_sound in Hm as (a & s3 & p3 & -> & Hm).
  apply lit_m_exact in Hm as (s4 & p4 & -> & _).
  now exists pre, a, s4.
Qed.

Lemma lazy_match_has_pair (doc : string) (mt : MatchResult) :
  exec EntityVariant.re_configuration doc = Some mt ->
  exists a b c, doc = a ++ OPEN ++ b ++ CLOSE ++ c.
Proof.
  intros H. apply search_sound in H as (pre & s1 & prev1 & mt1 & -> & Hm & _).
  unfold match_here, EntityVariant.re_configuration in Hm. cbn [m] in Hm.
  apply lit_m_exact in Hm as (s2 & p2 & -> & Hm).
  apply lazy_m_sound in Hm as (a & s3 & p3 & -> & Hm).
  apply lit_m_exact in Hm as (s4 & p4 & -> & _).
  now exists pre, a, s4.
Qed.

Lemma no_open_no_match (doc : string) :
  includes doc OPEN = false -> exec OpenApi.re_upto_open doc = None.
Proof.
  intros Hn. destruct (exec OpenApi.re_upto_open doc) as [mt|] eqn:E; [|reflexivity].
  apply search_sound in E as (pre & s1 & prev1 & mt1 & -> & Hm & _).
  unfold match_here, OpenApi.re_upto_open in Hm. cbn [m] in Hm.
  apply star_m_sound in Hm as (a & s3 & p3 & -> & Hm).
  apply lit_m_exact in Hm as (s4 & p4 & -> & _).
  rewrite <- append_assoc, includes_append in Hn. discriminate.
Qed.

Lemma no_close_no_match (doc : string) :
  includes doc CLOSE = false -> exec OpenApi.re_from_close doc = None.
Proof.
  intros Hn. destruct (exec OpenApi.re_from_close doc) as [mt|] eqn:E; [|reflexivity].
  apply search_sound in E as (pre & s1 & prev1 & mt1 & -> & Hm & _).
  unfold match_here, OpenApi.re_from_close in Hm. cbn [m] in Hm.
  apply lit_m_exact in Hm as (s2 & p2 & -> & _).
  rewrite includes_append in Hn. discriminate.
Qed.

(** C3, the claim as stated fails: for a document without any sentinel the
    constructor of [HomeAssistantConfiguration] raises nothing and keeps the
    whole text as the schema source; with the text decoding to a mapping,
    the loop over the documents goes on to write the output file. *)
Lemma missing_sentinels_raise_nothing :
  includes plain_doc OPEN = false /\
  includes plain_doc CLOSE = false /\
  OpenApi.constructor plain_fs "docs/plain.mqtt.markdown" =
    Ok (OpenApi.mkConfiguration "docs/plain.mqtt.markdown" "plain" None plain_doc) /\
  exists content,
    OpenApi.convert plain_load plain_fs plain_dump "docs" "root" "plain.mqtt.markdown" =
      Ok ("root/specs/fragments/plain.yml", content).
Proof.
  split; [reflexivity|]. split; [reflexivity|]. split; [reflexivity|].
  eexists. vm_compute. reflexivity.
Qed.

(** C3, amended: for a document text containing no configuration sentinel
    pair, [generateMqttEntityModel] (both revisions) raises an exception
    before anything is decoded, so that the loop of index.ts writes no file
    for that document; the constructor of [HomeAssistantConfiguration]
    raises nothing for it, and its schema source is the whole text when
    neither sentinel occurs. *)
Theorem missing_sentinel_pair (fs : string -> option string) (docFile doc : string) :
  fs docFile = Some doc ->
  (forall a b c, doc <> a ++ OPEN ++ b ++ CLOSE ++ c) ->
  (forall parse name,
     Entity.generateMqttEntityModel fs parse name docFile = Throw TypeError) /\
  (forall parse name,
     EntityVariant.generateMqttEntityModel fs parse name docFile = Throw TypeError) /\
  (forall parse render BASEDIR entityName,
     docFile = BASEDIR ++ "/generator/input/" ++ entityName ++ ".mqtt.markdown" ->
     Entity.generate_entity fs parse render BASEDIR entityName = Throw TypeError) /\
  (exists cfg,
     OpenApi.constructor fs docFile = Ok cfg /\
     OpenApi.source cfg = OpenApi.extract_source doc) /\
  (includes doc OPEN = false -> includes doc CLOSE = false ->
   OpenApi.extract_source doc = doc).
Proof.
  intros Hfs Hno.
  assert (Hg : exec Entity.re_configuration doc = None).
  { destruct (exec Entity.re_configuration doc) as [mt|] eqn:E; [|reflexivity].
    apply greedy_match_has_pair in E as (a & b & c & E). now apply Hno in E. }
  assert (Hl : exec EntityVariant.re_configuration doc = None).
  { destruct (exec EntityVariant.re_configuration doc) as [mt|] eqn:E; [|reflexivity].
    apply lazy_match_has_pair in E as (a & b & c & E). now apply Hno in E. }
  assert (He : forall parse name,
             Entity.generateMqttEntityModel fs parse name docFile = Throw TypeError).
  { intros parse name. unfold Entity.generateMqttEntityModel, readFileSync.
    rewrite Hfs. cbn [bind]. now rewrite Hg. }
  split; [exact He|]. split; [|split; [|split]].
  - intros parse name. unfold EntityVariant.generateMqttEntityModel, readFileSync.
    rewrite Hfs. cbn [bind]. now rewrite Hl.
  - intros parse render BASEDIR entityName Hf. unfold Entity.generate_entity.
    rewrite <- Hf, He. reflexivity.
  - unfold OpenApi.constructor, readFileSync. rewrite Hfs. cbn [bind].
    eexists. split; reflexivity.
  - intros Ho Hc. unfold OpenApi.extract_source.
    unfold replace at 2. rewrite (no_open_no_match doc Ho).
    unfold replace. now rewrite (no_close_no_match doc Hc).
Qed.

Lemma missing_sentinel_pair_witness :
  Entity.generateMqttEntityModel plain_fs select_parse
    "plain" "docs/plain.mqtt.markdown" = Throw TypeError /\
  EntityVariant.generateMqttEntityModel plain_fs select_parse
    "plain" "docs/plain.mqtt.markdown" = Throw TypeError /\
  (exists cfg,
     OpenApi.constructor plain_fs "docs/plain.mqtt.markdown" = Ok cfg /\
     OpenApi.source cfg = OpenApi.extract_source plain_doc) /\
  OpenApi.extract_source plain_doc = plain_doc.
Proof.
  assert (Hno : forall a b c, plain_doc <> a ++ OPEN ++ b ++ CLOSE ++ c).
  { intros a b c H.
    assert (Hi : includes plain_doc OPEN = true) by (rewrite H; apply includes_append).
    vm_compute in Hi. discriminate Hi. }
  pose proof (missing_sentinel_pair plain_fs "docs/plain.mqtt.markdown" plain_doc
                eq_refl Hno) as (He & Hv & _ & Hc & Hx).
  split; [apply He|]. split; [apply Hv|]. split; [exact Hc|].
  apply Hx; reflexivity.
Defined.

(** C9, at a document with two configuration blocks: the constructor of
    [HomeAssistantConfiguration] extracts the last block, entity.ts
    everything from the first opening sentinel to the last closing one, and
    only the later revision of entity.ts the first block. *)
Theorem two_blocks_extraction :
  OpenApi.extract_source two_blocks = nl ++ "second:" ++ nl /\
  option_map (group_text 1) (exec Entity.re_configuration two_blocks) =
    Some (nl ++ lines [ "first:"; CLOSE; "between"; OPEN; "second:" ]) /\
  option_map (group_text 1) (exec EntityVariant.re_configuration two_blocks) =
    Some (nl ++ "first:" ++ nl).
Proof. repeat split; vm_compute; reflexivity. Qed.

(** The later revision does what the extractor is specified to do: it
    returns the text between the first opening sentinel and the first
    closing sentinel after it. *)

Lemma lit_m_append {R : Type} (w : string) prev (s : string) cs (k : @cont R) :
  lit_m Ascii.eqb w prev (w ++ s) cs k = k (last_char prev w) s cs.
Proof.
  revert prev. induction w as [|x w IH]; simpl; intros prev; [reflexivity|].
  now rewrite Ascii.eqb_refl, IH.
Qed.

Lemma lazy_m_unfold {R : Type} p prev (s : string) cs (k : @cont R) :
  lazy_m p prev s cs k =
  match k prev s cs with
  | Some x => Some x
  | None =>
      match s with
      | String c s' => if p c then lazy_m p (Some c) s' cs k else None
      | EmptyString => None
      end
  end.
Proof. destruct s; reflexivity. Qed.

Lemma indexOf_later (w : string) (x : ascii) (s : string) (n : nat) :
  indexOf w (String x s) = Some (S n) ->
  starts_with w (String x s) = false /\ indexOf w s = Some n.
Proof.
  cbn [indexOf]. destruct (starts_with w (String x s)); [discriminate|].
  destruct (indexOf w s) as [i|]; simpl; [|discriminate].
  intros H. injection H as ->. auto.
Qed.

Lemma lazy_m_until {R : Type} (w b c : string) prev cs
    (K : string -> caps -> caps) (f : option ascii -> string -> caps -> R) :
  indexOf w (b ++ w ++ c) = Some (length b) ->
  lazy_m any_char prev (b ++ w ++ c) cs
    (fun p s cs' => lit_m Ascii.eqb w p s (K s cs') (fun p' s' cs'' => Some (f p' s' cs''))) =
  Some (f (last_char (last_char prev b) w) c (K (w ++ c) cs)).
Proof.
  revert prev. induction b as [|x b IH]; intros prev Hi.
  - rewrite lazy_m_unfold. cbn [append last_char]. now rewrite lit_m_append.
  - cbn [append length] in Hi. apply indexOf_later in Hi as [Hs Hi].
    rewrite lazy_m_unfold. cbn [append]. rewrite (lit_m_miss _ _ _ _ _ Hs).
    cbn [any_char last_char]. now apply IH.
Qed.

Lemma groups_prepend (pre : string) (mt : MatchResult) :
  groups (prepend pre mt) = groups mt.
Proof. induction pre as [|c pre IH]; simpl; [reflexivity | exact IH]. Qed.

Lemma search_first_literal (r : regex) (w a t : string) prev (mt : MatchResult) :
  (forall p s, starts_with w s = false -> match_here (Seq (Lit w) r) p s = None) ->
  indexOf w (a ++ w ++ t) = Some (length a) ->
  match_here (Seq (Lit w) r) (last_char prev a) (w ++ t) = Some mt ->
  search (Seq (Lit w) r) prev (a ++ w ++ t) = Some (prepend a mt).
Proof.
  intros Hmiss. revert prev. induction a as [|x a IH]; intros prev Hi Hm.
  - cbn [append last_char prepend] in *.
    destruct (w ++ t); cbn [search]; now rewrite Hm.
  - cbn [append length] in Hi. apply indexOf_later in Hi as [Hs Hi].
    cbn [append search]. rewrite (Hmiss _ _ Hs).
    rewrite (IH (Some x) Hi Hm). reflexivity.
Qed.

Lemma variant_first_block (a b c : string) :
  indexOf OPEN (a ++ OPEN ++ b ++ CLOSE ++ c) = Some (length a) ->
  indexOf CLOSE (b ++ CLOSE ++ c) = Some (length b) ->
  option_map (group_text 1)
    (exec EntityVariant.re_configuration (a ++ OPEN ++ b ++ CLOSE ++ c)) = Some b.
Proof.
  intros Ho Hc. unfold exec, EntityVariant.re_configuration.
  set (r := Seq (Group 1 (StarLazy any_char)) (Lit CLOSE)).
  assert (Hm : exists mt,
             match_here (Seq (Lit OPEN) r) (last_char None a) (OPEN ++ b ++ CLOSE ++ c) =
               Some mt /\ groups mt = [(1, b)]).
  { unfold match_here, r. cbn [m]. rewrite lit_m_append.
    rewrite (lazy_m_until CLOSE b c _ nil
               (fun s cs' => (1, taken (b ++ CLOSE ++ c) s) :: cs')
               (fun p' s' cs'' =>
                  mkMatch EmptyString (taken (OPEN ++ b ++ CLOSE ++ c) s') s' p' cs'') Hc).
    rewrite taken_append. eexists. split; reflexivity. }
  destruct Hm as [mt [Hm Hg]].
  rewrite (search_first_literal r OPEN a (b ++ CLOSE ++ c) None mt); [| |exact Ho|exact Hm].
  - cbn [option_map]. unfold group_text. rewrite groups_prepend, Hg. reflexivity.
  - intros p s Hs. unfold match_here. cbn [m]. now apply lit_m_miss.
Qed.

(** ** The typed-model lowering *)

Lemma set_In {V : Type} (o : list (string * V)) (n : string) (v : V) (e : string * V) :
  In e (set o n v) -> e = (n, v) \/ In e o.
Proof.
  induction o as [|[k w] tl IH]; simpl.
  - intros [<-|[]]. now left.
  - destruct (String.eqb_spec k n) as [->|Hne]; simpl.
    + intros [<-|H]; auto.
    + intros [<-|H]; auto. destruct (IH H); auto.
Qed.

Lemma Object_fromEntries_In {V : Type} (l : list (string * V)) (e : string * V) :
  In e (Object_fromEntries l) -> In e l.
Proof.
  unfold Object_fromEntries.
  assert (H : forall acc, In e (fold_left (fun o x => set o (fst x) (snd x)) l acc) ->
                          In e acc \/ In e l).
  { induction l as [|[n v] tl IH]; simpl; intros acc Hin; [now left|].
    destruct (IH _ Hin) as [H|H]; [|now right; right].
    apply set_In in H as [->|H]; [right; now left | now left]. }
  intros Hin. destruct (H nil Hin) as [[]|Hl]. exact Hl.
Qed.

Lemma mapM_In {A B : Type} (f : A -> result B) (l : list A) (bs : list B) (b : B) :
  mapM f l = Ok bs -> In b bs -> exists a, In a l /\ f a = Ok b.
Proof.
  revert bs. induction l as [|a tl IH]; simpl; intros bs H Hin.
  - injection H as <-. contradiction.
  - destruct (f a) as [b0|] eqn:Ea; [|discriminate].
    destruct (mapM f tl) as [bs0|] eqn:Et; [|discriminate].
    injection H as <-. destruct Hin as [<-|Hin].
    + exists a. auto.
    + destruct (IH _ eq_refl Hin) as [a' [Ha' Hf]]. exists a'. auto.
Qed.

Lemma mapM_source {A B : Type} (f : A -> result B) (l : list A) (bs : list B) (a : A) :
  mapM f l = Ok bs -> In a l -> exists b, In b bs /\ f a = Ok b.
Proof.
  revert bs. induction l as [|x tl IH]; simpl; intros bs H Hin; [contradiction|].
  destruct (f x) as [b0|] eqn:Ex; [|discriminate].
  destruct (mapM f tl) as [bs0|] eqn:Et; [|discriminate].
  injection H as <-. destruct Hin as [->|Hin].
  - exists b0. split; [now left | exact Ex].
  - destruct (IH _ eq_refl Hin) as [b [Hb Hf]]. exists b. split; [now right | exact Hf].
Qed.

Ltac case_ifs :=
  repeat match goal with
         | |- context [if ?b then _ else _] => destruct b eqn:?
         end.

Lemma entity_base_type_source (a a' : FieldAttributes) :
  Entity.base_type a = Ok a' -> same_source a a'.
Proof.
  unfold Entity.base_type, same_source.
  destruct (type a) as [[t|l]|] eqn:Et; cbn [type_includes_list bind];
    try discriminate; case_ifs; intros H; injection H as <-; cbn; auto.
Qed.

Lemma variant_base_type_source (a a' : FieldAttributes) :
  EntityVariant.base_type a = Ok a' -> same_source a a'.
Proof.
  unfold EntityVariant.base_type, EntityVariant.iterable_string, same_source.
  destruct (type a) as [[t|l]|] eqn:Et; cbn [type_includes_list bind];
    try discriminate; case_ifs;
    intros H; injection H as <-; cbn; repeat split; congruence.
Qed.

Lemma entity_name_override_source (n : string) (a : FieldAttributes) :
  same_source a (Entity.name_override n a).
Proof.
  unfold Entity.name_override, same_source.
  case_ifs; try destruct (anchor_name a); cbn; auto.
Qed.

Lemma variant_name_override_source (n : string) (a : FieldAttributes) :
  same_source a (EntityVariant.name_override n a).
Proof.
  unfold EntityVariant.name_override, same_source.
  case_ifs; try destruct (anchor_name a); cbn; auto.
Qed.

Lemma entity_appendRustType_type (n : string) (a a' : FieldAttributes) :
  Entity.appendRustType n a = Ok a' -> type a' = type a.
Proof.
  unfold Entity.appendRustType.
  destruct (Entity.base_type _) as [a0|] eqn:E; cbn [bind]; [|discriminate].
  intros H. injection H as <-. apply entity_base_type_source in E as (_ & E & _).
  destruct (entity_name_override_source n a0) as (_ & -> & _). exact E.
Qed.

Lemma entity_lower_fields_kept (ignored : list string)
    (md out : list (string * FieldAttributes)) (n : string) (a : FieldAttributes) :
  Entity.lower_fields ignored md = Ok out -> In (n, a) out ->
  mem n ignored = false /\ list_or_map (type a) = false.
Proof.
  unfold Entity.lower_fields. intros H Hin.
  destruct (mapM_In _ _ _ _ H Hin) as [[n0 a0] [Hin0 Hf]].
  cbn [fst snd] in Hf.
  destruct (Entity.appendRustType n0 a0) as [a1|] eqn:Ea; cbn [bind] in Hf;
    [|discriminate].
  injection Hf as -> ->.
  apply filter_In in Hin0 as [Hin0 Hi]. apply filter_In in Hin0 as [_ Ht].
  cbn [fst snd] in *. apply negb_true_iff in Hi, Ht.
  rewrite (entity_appendRustType_type _ _ _ Ea). auto.
Qed.

Lemma variant_lower_fields_kept (ignored : list string)
    (md out : list (string * FieldAttributes)) (n : string) (a : FieldAttributes) :
  EntityVariant.lower_fields ignored md = Ok out -> In (n, a) out ->
  mem n ignored = false.
Proof.
  unfold EntityVariant.lower_fields. intros H Hin.
  destruct (mapM_In _ _ _ _ H Hin) as [[n0 a0] [Hin0 Hf]].
  cbn [fst snd] in Hf.
  destruct (EntityVariant.appendRustType n0 a0) as [a1|] eqn:Ea; cbn [bind] in Hf;
    [|discriminate].
  injection Hf as -> ->.
  apply filter_In in Hin0 as [_ Hi]. cbn [fst] in Hi. now apply negb_true_iff in Hi.
Qed.

Lemma list_or_map_false (t : option tag) :
  list_or_map t = false -> t <> Some (TStr "list") /\ t <> Some (TStr "map").
Proof. intros H. split; intros ->; discriminate H. Qed.

(** C7, the claim as stated fails: the later revision of
    [generateMqttEntityModel] has no filter on the type tag and keeps the
    field [options], whose raw type tag is "list" (it types it as an
    iterable of [String]). *)
Lemma variant_keeps_list_fields :
  exists m a,
    EntityVariant.generateMqttEntityModel select_fs select_parse
      "select" "select.mqtt.markdown" = Ok m /\
    In ("options", a) (properties m) /\
    type a = Some (TStr "list") /\
    rustType a = Some "String" /\ iterable a = Some true.
Proof.
  eexists. eexists. split; [vm_compute; reflexivity|].
  split; [right; left; reflexivity|]. repeat split.
Qed.

(** C7, amended: for every raw schema, the output of
    [generateMqttEntityModel] of entity.ts has no field named "device" and
    no field whose raw type tag is literally "list" or "map" (the latter
    for any ignore list put in the place of [IGNORED_ATTRS]); the output of
    the later revision has no field named "device", which is on its ignore
    list, and keeps the fields tagged "list". *)
Theorem typed_model_filtering
    (fs : string -> option string)
    (parse : string -> result (list (string * FieldAttributes)))
    (name docFile : string) :
  (forall m, Entity.generateMqttEntityModel fs parse name docFile = Ok m ->
     forall n a, In (n, a) (properties m) ->
       n <> "device" /\ type a <> Some (TStr "list") /\ type a <> Some (TStr "map")) /\
  (forall ignored md out, Entity.lower_fields ignored md = Ok out ->
     forall n a, In (n, a) out ->
       ~ In n ignored /\ type a <> Some (TStr "list") /\ type a <> Some (TStr "map")) /\
  (forall m, EntityVariant.generateMqttEntityModel fs parse name docFile = Ok m ->
     forall n a, In (n, a) (properties m) -> n <> "device") /\
  (forall md out, EntityVariant.lower_fields EntityVariant.IGNORED_ATTRS md = Ok out ->
     forall n a, In (n, a) md -> type a = Some (TStr "list") ->
       ~ In n EntityVariant.IGNORED_ATTRS ->
       exists a', In (n, a') out /\ type a' = Some (TStr "list")).
Proof.
  assert (Hany : forall ignored md out, Entity.lower_fields ignored md = Ok out ->
            forall n a, In (n, a) out ->
              ~ In n ignored /\ type a <> Some (TStr "list") /\ type a <> Some (TStr "map")).
  { intros ignored md out H n a Hin.
    destruct (entity_lower_fields_kept _ _ _ _ _ H Hin) as [Hi Ht].
    split; [|now apply list_or_map_false].
    intros Hn. apply mem_In in Hn. rewrite Hn in Hi. discriminate. }
  split; [|split; [exact Hany|split]].
  - intros m H n a Hin. unfold Entity.generateMqttEntityModel in H.
    destruct (readFileSync fs docFile) as [doc|]; cbn [bind] in H; [|discriminate].
    destruct (exec Entity.re_configuration doc) as [mt|]; [|discriminate].
    destruct (parse _) as [md|]; cbn [bind] in H; [|discriminate].
    destruct (Entity.lower_fields Entity.IGNORED_ATTRS md) as [out|] eqn:E;
      cbn [bind] in H; [|discriminate].
    injection H as <-. cbn [properties] in Hin. apply Object_fromEntries_In in Hin.
    destruct (Hany _ _ _ E n a Hin) as [Hi Ht]. split; [|exact Ht].
    intros ->. apply Hi. simpl. tauto.
  - intros m H n a Hin. unfold EntityVariant.generateMqttEntityModel in H.
    destruct (readFileSync fs docFile) as [doc|]; cbn [bind] in H; [|discriminate].
    destruct (exec EntityVariant.re_configuration doc) as [mt|]; [|discriminate].
    destruct (parse _) as [md|]; cbn [bind] in H; [|discriminate].
    destruct (EntityVariant.lower_fields EntityVariant.IGNORED_ATTRS md) as [out|] eqn:E;
      cbn [bind] in H; [|discriminate].
    injection H as <-. cbn [properties] in Hin. apply Object_fromEntries_In in Hin.
    pose proof (variant_lower_fields_kept _ _ _ _ _ E Hin) as Hi.
    intros ->. discriminate Hi.
  - intros md out H n a Hin Ht Hn. unfold EntityVariant.lower_fields in H.
    destruct (mapM_source _ _ _ (n, a) H) as [[n' a'] [Hout Hf]].
    { apply filter_In. split; [exact Hin|]. cbn [fst]. apply negb_true_iff.
      destruct (mem n EntityVariant.IGNORED_ATTRS) eqn:E; [|reflexivity].
      apply mem_In in E. contradiction. }
    cbn [fst snd] in Hf.
    destruct (EntityVariant.appendRustType n a) as [a1|] eqn:Ea; cbn [bind] in Hf;
      [|discriminate].
    injection Hf as <- <-. exists a1. split; [exact Hout|].
    unfold EntityVariant.appendRustType in Ea.
    destruct (EntityVariant.base_type _) as [a0|] eqn:Eb; cbn [bind] in Ea;
      [|discriminate].
    injection Ea as <-. apply variant_base_type_source in Eb as (_ & Eb & _).
    destruct (variant_name_override_source n a0) as (_ & -> & _).
    rewrite Eb. exact Ht.
Qed.

Lemma typed_model_filtering_witness :
  exists m,
    Entity.generateMqttEntityModel select_fs select_parse
      "select" "select.mqtt.markdown" = Ok m /\
    names (properties m) = [ "command_topic"; "device_class"; "qos" ] /\
    forall n a, In (n, a) (properties m) ->
      n <> "device" /\ type a <> Some (TStr "list") /\ type a <> Some (TStr "map").
Proof.
  eexists. split; [vm_compute; reflexivity|]. split; [reflexivity|].
  apply (proj1 (typed_model_filtering select_fs select_parse
                  "select" "select.mqtt.markdown")).
  vm_compute. reflexivity.
Defined.

Lemma entity_base_type_import (a a' : FieldAttributes) :
  Entity.base_type a = Ok a' -> import a' = import a.
Proof.
  unfold Entity.base_type.
  destruct (type a) as [[t|l]|] eqn:Et; cbn [type_includes_list bind];
    try discriminate; case_ifs; intros H; injection H as <-; reflexivity.
Qed.

Lemma variant_base_type_import (a a' : FieldAttributes) :
  EntityVariant.base_type a = Ok a' -> type a <> Some (TStr "float") ->
  import a' = import a.
Proof.
  unfold EntityVariant.base_type, EntityVariant.iterable_string.
  destruct (type a) as [[t|l]|] eqn:Et; cbn [type_includes_list bind];
    try discriminate; case_ifs; intros H Hf; injection H as <-; try reflexivity.
  exfalso. apply Hf. f_equal. f_equal.
  match goal with E : String.eqb t "float" = true |- _ => now apply String.eqb_eq in E end.
Qed.

Lemma anchor_name_source (a a' : FieldAttributes) :
  same_source a a' -> anchor_name a' = anchor_name a.
Proof.
  intros (Hd & _ & _). unfold anchor_name, description_text. now rewrite Hd.
Qed.

Lemma no_anchor_no_name (a : FieldAttributes) :
  exec re_anchor (description_text a) = None -> anchor_name a = None.
Proof. intros H. unfold anchor_name. now rewrite H. Qed.

(** C10: for a field named "device_class" whose description has no anchor
    of the form "/integrations/<name>/#device-class", [appendRustType] (in
    both revisions) returns exactly what the mapping by type tag yields:
    the type is the base-mapped one (for a "string" tag the generic
    [String], converted with into), and no import requirement is recorded
    by the step (the import stays what it was; the later revision records
    one only through its base mapping of a "float" tag).  The named
    enumeration is put in place only when the pattern matches. *)
Theorem device_class_without_anchor (attrs : FieldAttributes) :
  (exec re_anchor (description_text attrs) = None ->
   Entity.appendRustType "device_class" attrs =
     Entity.base_type (set_rustSafeName "device_class" attrs) /\
   EntityVariant.appendRustType "device_class" attrs =
     EntityVariant.base_type (set_rustSafeName "device_class" attrs) /\
   (forall a', Entity.appendRustType "device_class" attrs = Ok a' ->
      import a' = import attrs) /\
   (forall a', EntityVariant.appendRustType "device_class" attrs = Ok a' ->
      type attrs <> Some (TStr "float") -> import a' = import attrs) /\
   (type attrs = Some (TStr "string") ->
    Entity.appendRustType "device_class" attrs =
      Ok (set_useInto true (set_rustType "String" (set_rustSafeName "device_class" attrs))) /\
    EntityVariant.appendRustType "device_class" attrs =
      Ok (set_useInto true (set_rustType "String" (set_rustSafeName "device_class" attrs))))) /\
  (forall a0 a',
     Entity.base_type (set_rustSafeName "device_class" attrs) = Ok a0 ->
     Entity.appendRustType "device_class" attrs = Ok a' ->
     a' <> a0 -> exec re_anchor (description_text attrs) <> None) /\
  (forall a0 a',
     EntityVariant.base_type (set_rustSafeName "device_class" attrs) = Ok a0 ->
     EntityVariant.appendRustType "device_class" attrs = Ok a' ->
     a' <> a0 -> exec re_anchor (description_text attrs) <> None).
Proof.
  set (attrs1 := set_rustSafeName "device_class" attrs).
  assert (Hs1 : same_source attrs attrs1) by (repeat split).
  assert (He : exec re_anchor (description_text attrs) = None ->
               Entity.appendRustType "device_class" attrs = Entity.base_type attrs1).
  { intros Hno. unfold Entity.appendRustType. cbn [String.eqb Ascii.eqb Bool.eqb].
    fold attrs1. destruct (Entity.base_type attrs1) as [a0|] eqn:E; cbn [bind];
      [|reflexivity].
    unfold Entity.name_override. cbn [String.eqb Ascii.eqb Bool.eqb].
    apply entity_base_type_source in E.
    rewrite (anchor_name_source attrs1 a0 E), (anchor_name_source attrs attrs1 Hs1).
    now rewrite (no_anchor_no_name attrs Hno). }
  assert (Hv : exec re_anchor (description_text attrs) = None ->
               EntityVariant.appendRustType "device_class" attrs =
               EntityVariant.base_type attrs1).
  { intros Hno. unfold EntityVariant.appendRustType. cbn [String.eqb Ascii.eqb Bool.eqb].
    fold attrs1. destruct (EntityVariant.base_type attrs1) as [a0|] eqn:E; cbn [bind];
      [|reflexivity].
    unfold EntityVariant.name_override. cbn [String.eqb Ascii.eqb Bool.eqb].
    apply variant_base_type_source in E.
    rewrite (anchor_name_source attrs1 a0 E), (anchor_name_source attrs attrs1 Hs1).
    now rewrite (no_anchor_no_name attrs Hno). }
  split; [|split].
  - intros Hno. split; [now apply He|]. split; [now apply Hv|].
    split; [|split].
    + intros a' H. rewrite (He Hno) in H.
      now rewrite (entity_base_type_import _ _ H).
    + intros a' H Hf. rewrite (Hv Hno) in H.
      now rewrite (variant_base_type_import _ _ H Hf).
    + intros Ht. rewrite (He Hno), (Hv Hno).
      unfold Entity.base_type, EntityVariant.base_type.
      change (type attrs1) with (type attrs). rewrite Ht. split; reflexivity.
  - intros a0 a' Hb Ha Hne Hno. rewrite (He Hno), Hb in Ha. injection Ha as <-.
    now apply Hne.
  - intros a0 a' Hb Ha Hne Hno. rewrite (Hv Hno), Hb in Ha. injection Ha as <-.
    now apply Hne.
Qed.

Lemma device_class_without_anchor_witness :
  Entity.appendRustType "device_class" plain_device_class =
    Entity.base_type (set_rustSafeName "device_class" plain_device_class) /\
  Entity.appendRustType "device_class" plain_device_class =
    Ok (set_useInto true
          (set_rustType "String" (set_rustSafeName "device_class" plain_device_class))) /\
  EntityVariant.appendRustType "device_class" plain_device_class =
    Ok (set_useInto true
          (set_rustType "String" (set_rustSafeName "device_class" plain_device_class))).
Proof.
  pose proof (proj1 (device_class_without_anchor plain_device_class) eq_refl)
    as (He & _ & _ & _ & Hs).
  split; [exact He|]. exact (Hs eq_refl).
Defined.

(** ** The device-class scanner *)

Lemma first_line_append (q rest : string) :
  ends_line q = true -> q <> EmptyString ->
  first_line (q ++ rest) = first_line q.
Proof.
  induction q as [|c t IH]; intros He Hne; [contradiction|].
  cbn [append first_line]. destruct (Ascii.eqb c LF) eqn:Ec; [reflexivity|].
  f_equal. destruct t as [|d t'].
  - cbn [ends_line] in He. congruence.
  - apply IH; [exact He | discriminate].
Qed.

Section LineLocal.
Context {R : Type}.
Implicit Types (k kk : @cont R).

Lemma lit_m_line eq w k kk :
  within_line eq w = true -> line_sim k kk ->
  line_sim (fun p s c => lit_m eq w p s c k) (fun p s c => lit_m eq w p s c kk).
Proof.
  intros Hw Hk. induction w as [|a w IH]; intros p s c c'.
  - apply Hk.
  - cbn [within_line] in Hw. apply andb_true_iff in Hw as [Ha Hw].
    apply negb_true_iff in Ha. specialize (IH Hw). unfold line_sim in IH.
    destruct s as [|b s]; [reflexivity|]. cbn [first_line lit_m].
    destruct (Ascii.eqb_spec b LF) as [->|Hb].
    + now rewrite Ha.
    + cbn [lit_m]. destruct (eq a b); [apply IH | reflexivity].
Qed.

Lemma star_m_line q k kk :
  q LF = false -> line_sim k kk ->
  line_sim (fun p s c => star_m q p s c k) (fun p s c => star_m q p s c kk).
Proof.
  intros Hq Hk p s. revert p. induction s as [|b s IH]; intros p c c'.
  - apply (Hk p EmptyString).
  - cbn [first_line star_m]. destruct (Ascii.eqb_spec b LF) as [->|Hb].
    + rewrite Hq. cbn [star_m]. apply (Hk p (String LF s)).
    + cbn [star_m]. pose proof (Hk p (String b s) c c') as Hh.
      cbn [first_line] in Hh.
      destruct (Ascii.eqb_spec b LF) as [|_]; [contradiction|].
      destruct (q b); [|exact Hh].
      specialize (IH (Some b) c c').
      destruct (star_m q (Some b) s c k), (star_m q (Some b) (first_line s) c' kk);
        try discriminate IH; try reflexivity. exact Hh.
Qed.

Lemma star_any_rest p s c (f : option ascii -> string -> caps -> R) :
  star_m any_char p s c (fun p' s' c' => Some (f p' s' c')) =
  Some (f (last_char p s) EmptyString c).
Proof.
  revert p. induction s as [|b s IH]; intros p; cbn [star_m last_char any_char].
  - reflexivity.
  - now rewrite IH.
Qed.
End LineLocal.

Lemma re_heading_line_local : line_local DeviceClass.re_heading.
Proof.
  intros p s. unfold match_here, DeviceClass.re_heading. cbn [m].
  destruct (at_line_start p); [|reflexivity].
  apply (lit_m_line Ascii.eqb "##"); [reflexivity|].
  apply (star_m_line (is_char "#")); [reflexivity|].
  apply (lit_m_line eqb_ci " Device Class"); [reflexivity|].
  intros p3 s3 c3 c3'. rewrite !star_any_rest.
  now destruct (lit_m eqb_ci "es" p3 s3 c3 _), (lit_m eqb_ci "es" p3 (first_line s3) c3' _).
Qed.

Lemma re_next_heading_line_local : line_local DeviceClass.re_next_heading.
Proof.
  intros p s. unfold match_here, DeviceClass.re_next_heading. cbn [m].
  destruct (at_line_start p); [|reflexivity].
  apply (lit_m_line Ascii.eqb "##"); [reflexivity|].
  apply (star_m_line (is_char "#")); [reflexivity|].
  intros p3 s3 c3 c3'. now rewrite !star_any_rest.
Qed.

Lemma option_map_prepend_nil (o : option MatchResult) :
  option_map (prepend EmptyString) o = o.
Proof. now destruct o. Qed.

(** A search that finds nothing in whole lines goes on after them. *)
Lemma search_past_lines (r : regex) (pre rest : string) (prev : option ascii) :
  line_local r -> ends_line pre = true -> search r prev pre = None ->
  search r prev (pre ++ rest) =
  option_map (prepend pre) (search r (last_char prev pre) rest).
Proof.
  intros Hr. revert prev. induction pre as [|c pre IH]; intros prev He Hs.
  - cbn [append last_char]. now rewrite option_map_prepend_nil.
  - cbn [search] in Hs.
    destruct (match_here r prev (String c pre)) as [mt|] eqn:Em; [discriminate|].
    destruct (search r (Some c) pre) as [mt|] eqn:Es; [discriminate|].
    assert (Hm : match_here r prev (String c (pre ++ rest)) = None).
    { pose proof (Hr prev (String c pre ++ rest)) as H1.
      rewrite first_line_append in H1; [|exact He|discriminate].
      rewrite <- (Hr prev (String c pre)), Em in H1.
      cbn [append] in H1. now destruct (match_here r prev (String c (pre ++ rest))). }
    cbn [append search last_char]. rewrite Hm.
    rewrite IH; [|destruct pre; [reflexivity | exact He]|exact Es].
    now destruct (search r (last_char (Some c) pre) rest).
Qed.

Lemma search_here (r : regex) (p : option ascii) (s : string) (mt : MatchResult) :
  match_here r p s = Some mt -> search r p s = Some mt.
Proof. intros H. destruct s; cbn [search]; now rewrite H. Qed.

Lemma lit_m_ci_append {R : Type} (w : string) prev (s : string) cs (k : @cont R) :
  lit_m eqb_ci w prev (w ++ s) cs k = k (last_char prev w) s cs.
Proof.
  revert prev. induction w as [|x w IH]; simpl; intros prev; [reflexivity|].
  unfold eqb_ci at 1. now rewrite Ascii.eqb_refl, IH.
Qed.

(** A greedy star takes every character of the class when what follows
    then succeeds. *)
Lemma star_m_greedy {R : Type} (q : ascii -> bool) (a s : string) p cs
    (k : @cont R) (v : R) :
  all_chars q a = true -> stops q s = true ->
  k (last_char p a) s cs = Some v ->
  star_m q p (a ++ s) cs k = Some v.
Proof.
  revert p. induction a as [|x a IH]; intros p Ha Hs Hk.
  - cbn [append last_char] in *. destruct s as [|c s]; [exact Hk|].
    cbn [star_m]. cbn [stops] in Hs. apply negb_true_iff in Hs. now rewrite Hs.
  - cbn [all_chars] in Ha. apply andb_true_iff in Ha as [Hx Ha].
    cbn [append star_m]. rewrite Hx. now rewrite (IH (Some x) Ha Hs Hk).
Qed.

Lemma matched_prepend (pre : string) (mt : MatchResult) :
  matched (prepend pre mt) = matched mt.
Proof. induction pre as [|c pre IH]; simpl; [reflexivity | exact IH]. Qed.

Lemma after_prepend (pre : string) (mt : MatchResult) :
  after (prepend pre mt) = after mt.
Proof. induction pre as [|c pre IH]; simpl; [reflexivity | exact IH]. Qed.

Lemma after_prev_prepend (pre : string) (mt : MatchResult) :
  after_prev (prepend pre mt) = after_prev mt.
Proof. induction pre as [|c pre IH]; simpl; [reflexivity | exact IH]. Qed.

Lemma ends_line_start (pre : string) :
  ends_line pre = true -> at_line_start (last_char None pre) = true.
Proof.
  assert (H : forall p, (pre = EmptyString -> at_line_start p = true) ->
                        ends_line pre = true ->
                        at_line_start (last_char p pre) = true).
  { induction pre as [|c t IH]; intros p Hp He; [now apply Hp|].
    cbn [last_char]. destruct t as [|d t'].
    - cbn [ends_line] in He. cbn [last_char at_line_start]. now rewrite He.
    - apply IH; [discriminate | exact He]. }
  intros He. now apply H.
Qed.

Lemma heading_match (p : option ascii) (t : string) :
  at_line_start p = true ->
  match_here DeviceClass.re_heading p ("### Device Class" ++ String LF t) =
  Some (mkMatch EmptyString ("### Device Class" ++ String LF t) EmptyString
          (last_char (Some LF) t) [(1, String LF t)]).
Proof.
  intros Hp. unfold match_here, DeviceClass.re_heading. cbn [m]. rewrite Hp.
  change ("### Device Class" ++ String LF t)
    with ("##" ++ ("#" ++ (" Device Class" ++ String LF t))).
  rewrite lit_m_append.
  eapply star_m_greedy; [reflexivity | reflexivity |].
  rewrite lit_m_ci_append. cbn [lit_m].
  change (eqb_ci "e" LF) with false. cbv iota.
  rewrite star_any_rest, !taken_all. reflexivity.
Qed.

Lemma next_heading_match (t : string) :
  match_here DeviceClass.re_next_heading (Some LF) ("### Other Section" ++ t) =
  Some (mkMatch EmptyString ("### Other Section" ++ t) EmptyString
          (last_char (Some "n"%char) t) nil).
Proof.
  unfold match_here, DeviceClass.re_next_heading. cbn [m].
  change (at_line_start (Some LF)) with true. cbv iota.
  change ("### Other Section" ++ t) with ("##" ++ ("#" ++ (" Other Section" ++ t))).
  rewrite lit_m_append.
  eapply star_m_greedy; [reflexivity | reflexivity |].
  rewrite star_any_rest, !taken_all. reflexivity.
Qed.

Lemma next_heading_at_end (p : option ascii) :
  search DeviceClass.re_next_heading p EmptyString = None.
Proof.
  cbn [search]. unfold match_here, DeviceClass.re_next_heading. cbn [m lit_m].
  now destruct (at_line_start p).
Qed.

Lemma paragraph_search (t : string) :
  search DeviceClass.re_next_heading None
                 (bullets ++ "### Other Section" ++ t) =
               Some (prepend bullets
                       (mkMatch EmptyString ("### Other Section" ++ t) EmptyString
                          (last_char (Some "n"%char) t) nil)).
Proof.
  rewrite search_past_lines;
      [|exact re_next_heading_line_local | reflexivity | vm_compute; reflexivity].
    change (last_char None bullets) with (Some LF).
    now rewrite (search_here _ _ _ _ (next_heading_match t)).
Qed.

Lemma replace_from_end (n : nat) (f : MatchResult -> string) (p : option ascii) :
  replace_from n DeviceClass.re_next_heading f p EmptyString = EmptyString.
Proof. destruct n; cbn [replace_from]; [reflexivity|]. now rewrite next_heading_at_end. Qed.

(** The paragraph of the example, cut at the next heading. *)
Lemma paragraph_of_example (t : string) :
  replaceAll DeviceClass.re_next_heading (with_text EmptyString)
    (bullets ++ "### Other Section" ++ t) = bullets.
Proof.
  unfold replaceAll.
  cbn [replace_from]. rewrite paragraph_search.
  rewrite before_prepend, matched_prepend, after_prepend, after_prev_prepend.
  cbn [before matched after after_prev with_text].
  rewrite replace_from_end.
  change ("### Other Section" ++ t) with (String "#" ("## Other Section" ++ t)).
  cbn [append]. now rewrite append_nil_r.
Qed.

Lemma enums_of_example (name pre post : string) :
  ends_line pre = true ->
  exec DeviceClass.re_heading pre = None ->
  DeviceClass.enums_of_text name (pre ++ example_section ++ post) =
    Ok (DeviceClass.mkEnumModel name example_values).
Proof.
  intros He Hn. unfold DeviceClass.enums_of_text, exec.
  rewrite search_past_lines; [|exact re_heading_line_local | exact He | exact Hn].
  assert (Hx : example_section ++ post =
               "### Device Class" ++ String LF
                 (bullet_lines ++ "### Other Section" ++ post))
    by reflexivity.
  rewrite Hx.
  rewrite (search_here _ _ _ _
             (heading_match _ _ (ends_line_start pre He))).
  cbn [option_map]. unfold group_text. rewrite groups_prepend.
  cbn [groups group Nat.eqb].
  change (String LF (bullet_lines ++ "### Other Section" ++ post))
    with (bullets ++ "### Other Section" ++ post).
  rewrite paragraph_of_example. reflexivity.
Qed.

(** C8: for a markdown document that contains the heading
    "### Device Class" (at the start of a line, no Device Class heading
    before it), then the two bullet lines for [motion] and [door] and then
    the heading "### Other Section", whatever comes before and after,
    [extractDeviceClassesEnums] returns exactly the two pairs
    ("motion", "Motion detected.") and ("door", "Door opened."), in that
    order: the backticks are stripped from the value tokens, the lines that
    are no bullets (here the empty ones) are dropped, and nothing from the
    next heading on is read. *)
Theorem device_class_example (fs : string -> option string)
    (name docFile pre post : string) :
  fs docFile = Some (pre ++ example_section ++ post) ->
  ends_line pre = true ->
  exec DeviceClass.re_heading pre = None ->
  DeviceClass.extractDeviceClassesEnums fs name docFile =
    Ok (DeviceClass.mkEnumModel name example_values).
Proof.
  intros Hfs He Hn. unfold DeviceClass.extractDeviceClassesEnums, readFileSync.
  rewrite Hfs. cbn [bind]. now apply enums_of_example.
Qed.

Lemma device_class_example_witness :
  DeviceClass.extractDeviceClassesEnums example_fs "binary_sensor" "binary_sensor.markdown" =
    Ok (DeviceClass.mkEnumModel "binary_sensor" example_values) /\
  DeviceClass.extractDeviceClassesEnums example_fs "sensor" "sensor.markdown" =
    Ok (DeviceClass.mkEnumModel "sensor" example_values).
Proof.
  split.
  - apply (device_class_example example_fs "binary_sensor" "binary_sensor.markdown"
             EmptyString (nl ++ "ignored" ++ nl)); reflexivity.
  - apply (device_class_example example_fs "sensor" "sensor.markdown"
             example_front (nl ++ "ignored" ++ nl)); reflexivity.
Defined.

(** * Further properties of the code *)

(** ** The OpenAPI lowering: exceptions and the shape of a node *)

Lemma mapM_throws {A B : Type} (f : A -> result B) (l : list A) (e0 : error) :
  Forall (fun a => (exists b, f a = Ok b) \/ f a = Throw e0) l ->
  Exists (fun a => f a = Throw e0) l ->
  mapM f l = Throw e0.
Proof.
  induction 1 as [|a tl Ha _ IH]; intros Hex; [inversion Hex|].
  simpl. destruct Ha as [[b Hb]| Ht].
  - rewrite Hb. inversion Hex as [? ? H0|? ? H0]; subst.
    + rewrite Hb in H0. discriminate.
    + now rewrite (IH H0).
  - now rewrite Ht.
Qed.

Lemma forallb_false_Exists {A : Type} (f : A -> bool) (l : list A) :
  forallb f l = false -> Exists (fun a => f a = false) l.
Proof.
  induction l as [|a tl IH]; simpl; [discriminate|].
  destruct (f a) eqn:E; simpl; intros H.
  - right. now apply IH.
  - now left.
Qed.

(** The children of a node, when each child either is lowered or throws a
    [TypeError] according to [keyed]. *)
Lemma lower_entries_keyed (children : list (string * OpenApi.Property)) :
  Forall (fun e =>
            (keyed (snd e) = true ->
             exists v, OpenApi.toOpenapiObjectPropertyA (snd e) = Ok v) /\
            (keyed (snd e) = false ->
             OpenApi.toOpenapiObjectPropertyA (snd e) = Throw TypeError)) children ->
  (forallb (fun e => keyed (snd e)) children = true ->
   exists es, OpenApi.lower_entries OpenApi.toOpenapiObjectPropertyA children = Ok es) /\
  (forallb (fun e => keyed (snd e)) children = false ->
   OpenApi.lower_entries OpenApi.toOpenapiObjectPropertyA children = Throw TypeError).
Proof.
  intros Hall. unfold OpenApi.lower_entries.
  set (f := fun e : string * OpenApi.Property =>
              match OpenApi.toOpenapiObjectPropertyA (snd e) with
              | Ok v => Ok (fst e, v)
              | Throw x => Throw x
              end).
  split; intros Hk.
  - destruct (mapM_total f children) as [es [Hes _]].
    + rewrite forallb_forall in Hk. rewrite Forall_forall in *.
      intros e He. destruct (proj1 (Hall e He) (Hk e He)) as [v Hv].
      exists (fst e, v). unfold f. now rewrite Hv.
    + rewrite Hes. cbn [bind]. eauto.
  - rewrite (mapM_throws f children TypeError); [reflexivity| |].
    + rewrite Forall_forall in *. intros e He.
      destruct (keyed (snd e)) eqn:E.
      * left. destruct (proj1 (Hall e He) E) as [v Hv].
        exists (fst e, v). unfold f. now rewrite Hv.
      * right. unfold f. now rewrite (proj2 (Hall e He) E).
    + apply forallb_false_Exists in Hk. rewrite Exists_exists in *.
      destruct Hk as [e [He Hf]]. exists e. split; [exact He|].
      rewrite Forall_forall in Hall. unfold f.
      now rewrite (proj2 (Hall e He) Hf).
Qed.

Lemma lowering_keyed (p : OpenApi.Property) :
  (keyed p = true -> exists v, OpenApi.toOpenapiObjectPropertyA p = Ok v) /\
  (keyed p = false -> OpenApi.toOpenapiObjectPropertyA p = Throw TypeError).
Proof.
  induction p as [d r t k df IH] using Property_nested_ind.
  assert (Hkids : forall l, k = Some l ->
            (forallb (fun e => keyed (snd e)) l = true ->
             exists es, OpenApi.lower_entries OpenApi.toOpenapiObjectPropertyA l = Ok es) /\
            (forallb (fun e => keyed (snd e)) l = false ->
             OpenApi.lower_entries OpenApi.toOpenapiObjectPropertyA l = Throw TypeError)).
  { intros l Hl. apply lower_entries_keyed. exact (IH l Hl). }
  rewrite lowering_cases.
  unfold OpenApi.toOpenapiObjectProperty, OpenApi.toOpenapiListProperty,
    OpenApi.objectProperty, OpenApi.listProperty.
  cbn [keyed OpenApi.type OpenApi.keys].
  destruct t as [[t|l]|].
  - destruct (String.eqb t "map").
    + destruct k as [l|]; [|split; [discriminate | reflexivity]].
      destruct (Hkids l eq_refl) as [Hy Hn]. split; intros Hk.
      * destruct (Hy Hk) as [es ->]. cbn [bind]. eauto.
      * rewrite (Hn Hk). reflexivity.
    + destruct (String.eqb t "list").
      * destruct k as [l|]; [|split; [eauto | discriminate]].
        destruct (Hkids l eq_refl) as [Hy Hn]. split; intros Hk.
        -- destruct (Hy Hk) as [es ->]. cbn [bind]. eauto.
        -- rewrite (Hn Hk). reflexivity.
      * split; [|discriminate]. intros _.
        destruct (mem t OpenApi.string_tags); eauto.
  - split; [eauto | discriminate].
  - destruct k as [l|]; [|split; [discriminate | reflexivity]].
    destruct (Hkids l eq_refl) as [Hy Hn]. split; intros Hk.
    + destruct (Hy Hk) as [es ->]. cbn [bind]. eauto.
    + rewrite (Hn Hk). reflexivity.
Qed.

(** X1: the OpenAPI lowering throws exactly when some object node it
    visits has no [keys], and what it throws then is a [TypeError];
    otherwise it returns a value (duplicate names, unknown tags and stray
    fields never make it throw). *)
Theorem lowering_throws_without_keys (p : OpenApi.Property) :
  (keyed p = true -> exists v, OpenApi.toOpenapiObjectPropertyA p = Ok v) /\
  (keyed p = false -> OpenApi.toOpenapiObjectPropertyA p = Throw TypeError).
Proof. exact (lowering_keyed p). Qed.

Lemma lowering_throws_without_keys_witness :
  (exists v, OpenApi.toOpenapiObjectPropertyA sample_device = Ok v) /\
  OpenApi.toOpenapiObjectPropertyA
    (OpenApi.mkProperty None false None
       (Some [ ("name", scalar "The name." true "string" VUndefined);
               ("device", OpenApi.mkProperty None false (Some (TStr "map")) None VUndefined) ])
       VUndefined) = Throw TypeError.
Proof.
  split.
  - apply (proj1 (lowering_throws_without_keys sample_device)). reflexivity.
  - apply (proj2 (lowering_throws_without_keys _)). reflexivity.
Defined.

(** X2: whatever record is lowered, the node returned is [undefined]
    (exactly for the tags that no case names) or an object whose
    [description] is the synthesized description and whose [type] is
    "object", "array" or "string"; the tags "boolean", "integer",
    "template" and "device_class" give the very node of a "string",
    whatever [keys] and [required] the record has. *)
Theorem lowered_node_shape (p : OpenApi.Property) (v : value) :
  OpenApi.toOpenapiObjectPropertyA p = Ok v ->
  (v = VUndefined <-> OpenApi.known_tag (OpenApi.type p) = false) /\
  (v = VUndefined \/
   exists o, v = VObj o /\
     prop o "description" = VStr (OpenApi.describe p) /\
     (prop o "type" = VStr "object" \/ prop o "type" = VStr "array" \/
      prop o "type" = VStr "string")) /\
  (forall t, OpenApi.type p = Some (TStr t) -> mem t OpenApi.string_tags = true ->
     v = VObj [ ("description", VStr (OpenApi.describe p)); ("type", VStr "string") ]).
Proof.
  rewrite lowering_cases.
  unfold OpenApi.toOpenapiObjectProperty, OpenApi.toOpenapiListProperty,
    OpenApi.objectProperty, OpenApi.listProperty, OpenApi.known_tag.
  destruct (OpenApi.type p) as [[t|l]|].
  - change (mem t ("map" :: "list" :: OpenApi.string_tags))
      with (String.eqb t "map" || (String.eqb t "list" || mem t OpenApi.string_tags)).
    destruct (String.eqb_spec t "map") as [->|Hm].
    + destruct (OpenApi.keys p) as [ch|]; [|discriminate].
      destruct (OpenApi.lower_entries _ ch) as [es|]; cbn [bind]; [|discriminate].
      intros H. injection H as <-. split; [split; discriminate|]. split.
      * right. eexists. split; [reflexivity|]. split; [reflexivity | now left].
      * intros t Ht. injection Ht as <-. discriminate.
    + destruct (String.eqb_spec t "list") as [->|Hl].
      * assert (Hshape : forall items,
                  VObj [ ("description", VStr (OpenApi.describe p));
                         ("type", VStr "array"); ("items", VObj items) ] = v ->
                  (v = VUndefined <-> false || (true || mem "list" OpenApi.string_tags) = false) /\
                  (v = VUndefined \/
                   exists o, v = VObj o /\
                     prop o "description" = VStr (OpenApi.describe p) /\
                     (prop o "type" = VStr "object" \/ prop o "type" = VStr "array" \/
                      prop o "type" = VStr "string")) /\
                  (forall t, Some (TStr "list") = Some (TStr t) ->
                     mem t OpenApi.string_tags = true ->
                     v = VObj [ ("description", VStr (OpenApi.describe p));
                                ("type", VStr "string") ])).
        { intros items <-. split; [split; discriminate|]. split.
          - right. eexists. split; [reflexivity|]. split; [reflexivity|].
            right. now left.
          - intros t Ht. injection Ht as <-. discriminate. }
        destruct (OpenApi.keys p) as [ch|].
        -- destruct (OpenApi.lower_entries _ ch) as [es|]; cbn [bind]; [|discriminate].
           intros H. injection H as H. exact (Hshape _ H).
        -- intros H. injection H as H. exact (Hshape _ H).
      * cbn [orb]. destruct (mem t OpenApi.string_tags) eqn:Es.
        -- intros H. injection H as <-. split; [split; discriminate|]. split.
           ++ right. eexists. split; [reflexivity|]. split; [reflexivity|].
              right. now right.
           ++ reflexivity.
        -- intros H. injection H as <-. split; [split; reflexivity|]. split.
           ++ now left.
           ++ intros t' Ht. injection Ht as <-. congruence.
  - intros H. injection H as <-. split; [split; reflexivity|]. split; [now left|].
    discriminate.
  - destruct (OpenApi.keys p) as [ch|]; [|discriminate].
    destruct (OpenApi.lower_entries _ ch) as [es|]; cbn [bind]; [|discriminate].
    intros H. injection H as <-. split; [split; discriminate|]. split.
    + right. eexists. split; [reflexivity|]. split; [reflexivity | now left].
    + discriminate.
Qed.

Lemma lowered_node_shape_witness :
  OpenApi.toOpenapiObjectPropertyA (scalar "If true, retain." false "boolean" (VBool false)) =
    Ok (VObj [ ("description", VStr "If true, retain."); ("type", VStr "string") ]) /\
  (VObj [ ("description", VStr "If true, retain."); ("type", VStr "string") ] = VUndefined <->
   OpenApi.known_tag (Some (TStr "boolean")) = false).
Proof.
  assert (H : OpenApi.toOpenapiObjectPropertyA
                (scalar "If true, retain." false "boolean" (VBool false)) =
              Ok (VObj [ ("description", VStr "If true, retain.");
                         ("type", VStr "string") ])) by reflexivity.
  split; [exact H|].
  exact (proj1 (lowered_node_shape _ _ H)).
Defined.

(** ** The two projections of the reference schema *)

Lemma lowered_get_none config entries (n : string) :
  lowered config entries -> ~ In n (names config) -> get entries n = None.
Proof.
  induction 1 as [|[k a] [k' v] cs es [Hn Hv] _ IH]; simpl; intros Hin.
  - reflexivity.
  - simpl in Hn. subst k'. destruct (String.eqb_spec k n) as [->|Hne].
    + exfalso. apply Hin. now left.
    + apply IH. intros H. apply Hin. now right.
Qed.

(** The model of a decoded schema: the object node over its lowered
    entries. *)
Lemma model_of_schema
    (yaml_load : string -> result (list (string * OpenApi.Property)))
    (this : OpenApi.HomeAssistantConfiguration)
    (config : list (string * OpenApi.Property)) :
  yaml_load (OpenApi.source this) = Ok config ->
  distinct (names config) = true ->
  forallb (fun e => OpenApi.well_formed (snd e)) config = true ->
  exists required es,
    lowered config es /\
    OpenApi.toOpenapiObjectModel yaml_load this =
      Ok (VObj [ ("type", VStr "object");
                 ("description",
                   VStr (match OpenApi.cfg_description this with
                         | Some (String c d) => String c d
                         | _ => EmptyString
                         end));
                 ("required", VArr required);
                 ("properties", VObj es) ]).
Proof.
  intros Hload Hd Hwf.
  set (root := OpenApi.mkProperty (OpenApi.cfg_description this) true
                 (Some (TStr "map")) (Some config) VUndefined).
  assert (Hroot : OpenApi.well_formed root = true).
  { simpl. now rewrite Hd, Hwf. }
  destruct (lower_entries_well_formed root config Hroot eq_refl) as [es [Hes Hl]];
    [auto|].
  eexists. exists es. split; [exact Hl|].
  unfold OpenApi.toOpenapiObjectModel. rewrite Hload. cbn [bind]. fold root.
  unfold OpenApi.toOpenapiObjectProperty, OpenApi.objectProperty.
  change (OpenApi.keys root) with (Some config). cbv beta iota. rewrite Hes.
  cbn [bind]. repeat f_equal.
  unfold OpenApi.describe, root. cbn [OpenApi.default OpenApi.description truthy].
  destruct (OpenApi.cfg_description this) as [[|c d]|]; reflexivity.
Qed.

(** X3: [getDeviceModel] of a decoded schema (names distinct, records
    well formed) is the lowering of its [device] record, and [undefined]
    (no exception) when the schema has no property of that name. *)
Theorem device_projection
    (yaml_load : string -> result (list (string * OpenApi.Property)))
    (this : OpenApi.HomeAssistantConfiguration)
    (config : list (string * OpenApi.Property)) :
  yaml_load (OpenApi.source this) = Ok config ->
  distinct (names config) = true ->
  forallb (fun e => OpenApi.well_formed (snd e)) config = true ->
  (In "device" (names config) ->
   exists d v, In ("device", d) config /\
               OpenApi.toOpenapiObjectPropertyA d = Ok v /\
               OpenApi.getDeviceModel yaml_load this = Ok v) /\
  (~ In "device" (names config) ->
   OpenApi.getDeviceModel yaml_load this = Ok VUndefined).
Proof.
  intros Hload Hd Hwf.
  destruct (model_of_schema yaml_load this config Hload Hd Hwf)
    as (req & es & Hl & Hm).
  unfold OpenApi.getDeviceModel. rewrite Hm. cbn [bind].
  change (OpenApi.member (VObj _) "properties") with (@Ok value (VObj es)).
  cbn [bind OpenApi.member]. unfold prop. split; intros Hin.
  - destruct (lowered_get config es "device" Hl Hin) as (d & v & Hi & Hg & Hv).
    exists d, v. rewrite Hg. auto.
  - now rewrite (lowered_get_none config es "device" Hl Hin).
Qed.

Lemma device_projection_witness :
  (exists d v, In ("device", d) sample_config /\
               OpenApi.toOpenapiObjectPropertyA d = Ok v /\
               OpenApi.getDeviceModel (fun _ => Ok sample_config)
                 (OpenApi.mkConfiguration "sensor.mqtt.markdown" "sensor" None EmptyString) =
                 Ok v) /\
  OpenApi.getDeviceModel
    (fun _ => Ok [ ("state_topic", scalar "The state topic." true "string" VUndefined) ])
    (OpenApi.mkConfiguration "sensor.mqtt.markdown" "sensor" None EmptyString) =
    Ok VUndefined.
Proof.
  split.
  - apply (proj1 (device_projection (fun _ => Ok sample_config)
                    (OpenApi.mkConfiguration "sensor.mqtt.markdown" "sensor" None EmptyString)
                    sample_config eq_refl eq_refl eq_refl)).
    simpl. tauto.
  - apply (proj2 (device_projection
                    (fun _ => Ok [ ("state_topic",
                                    scalar "The state topic." true "string" VUndefined) ])
                    (OpenApi.mkConfiguration "sensor.mqtt.markdown" "sensor" None EmptyString)
                    _ eq_refl eq_refl eq_refl)).
    simpl. intros [H|[]]. discriminate H.
Defined.

(** X4: [getAvailabilityModel] never throws for a property that the schema
    lacks: the two members of [allOf] are the lowered [availability] and
    [availability_mode] or [undefined] where the schema has none, and the
    second branch holds whichever of the four legacy names the schema has,
    in schema order (possibly none). *)
Theorem availability_model_partial
    (yaml_load : string -> result (list (string * OpenApi.Property)))
    (this : OpenApi.HomeAssistantConfiguration)
    (config : list (string * OpenApi.Property)) :
  yaml_load (OpenApi.source this) = Ok config ->
  distinct (names config) = true ->
  forallb (fun e => OpenApi.well_formed (snd e)) config = true ->
  exists es,
    lowered config es /\
    OpenApi.getAvailabilityModel yaml_load this =
      Ok (VObj
            [ ("oneOf",
                VArr [ VObj [ ("allOf",
                                VArr [ prop es "availability";
                                       prop es "availability_mode" ]) ];
                       VObj (filter (fun e => mem (fst e) OpenApi.AVAILABILITY_PROPERTIES)
                               es) ]) ]) /\
    (forall n, ~ In n (names config) -> prop es n = VUndefined).
Proof.
  intros Hload Hd Hwf.
  destruct (model_of_schema yaml_load this config Hload Hd Hwf)
    as (req & es & Hl & Hm).
  exists es. split; [exact Hl|]. split.
  - unfold OpenApi.getAvailabilityModel. rewrite Hm. cbn [bind].
    change (OpenApi.member (VObj _) "properties") with (@Ok value (VObj es)).
    cbn [bind OpenApi.member OpenApi.Object_entries].
    rewrite Object_fromEntries_distinct; [reflexivity|].
    rewrite (names_filter (fun n => mem n OpenApi.AVAILABILITY_PROPERTIES) es).
    apply NoDup_filter. rewrite (lowered_names _ _ Hl). now apply distinct_NoDup.
  - intros n Hn. unfold prop. now rewrite (lowered_get_none config es n Hl Hn).
Qed.

Lemma availability_model_partial_witness :
  exists es,
    lowered [ ("state_topic", scalar "The state topic." true "string" VUndefined);
              ("payload_available", scalar "The payload." false "string" (VStr "online")) ]
      es /\
    OpenApi.getAvailabilityModel
      (fun _ => Ok [ ("state_topic", scalar "The state topic." true "string" VUndefined);
                     ("payload_available",
                       scalar "The payload." false "string" (VStr "online")) ])
      (OpenApi.mkConfiguration "sensor.mqtt.markdown" "sensor" None EmptyString) =
      Ok (VObj
            [ ("oneOf",
                VArr [ VObj [ ("allOf",
                                VArr [ prop es "availability";
                                       prop es "availability_mode" ]) ];
                       VObj (filter (fun e => mem (fst e) OpenApi.AVAILABILITY_PROPERTIES)
                               es) ]) ]) /\
    (forall n,
       ~ In n [ "state_topic"; "payload_available" ] -> prop es n = VUndefined).
Proof.
  apply (availability_model_partial
           (fun _ => Ok [ ("state_topic", scalar "The state topic." true "string" VUndefined);
                          ("payload_available",
                            scalar "The payload." false "string" (VStr "online")) ])
           (OpenApi.mkConfiguration "sensor.mqtt.markdown" "sensor" None EmptyString));
    reflexivity.
Defined.

(** ** Which block each extractor takes *)

Lemma includes_false_inv (s w : string) :
  includes s w = false ->
  starts_with w s = false /\
  (forall c t, s = String c t -> includes t w = false).
Proof.
  unfold includes. destruct s as [|c t]; cbn [indexOf].
  - destruct (starts_with w EmptyString); [discriminate|]. split; [reflexivity|].
    discriminate.
  - destruct (starts_with w (String c t)); [discriminate|].
    intros H. split; [reflexivity|]. intros c' t' E. injection E as <- <-.
    now destruct (indexOf w t).
Qed.

(** Characters that cannot start an occurrence can be skipped. *)
Lemma includes_skip (a : ascii) (w u t : string) :
  all_chars (not_char a) u = true ->
  includes (u ++ t) (String a w) = includes t (String a w).
Proof.
  induction u as [|c u IH]; intros Hu; [reflexivity|].
  cbn [all_chars] in Hu. apply andb_true_iff in Hu as [Hc Hu].
  unfold not_char in Hc. apply negb_true_iff in Hc.
  unfold includes in *. cbn [append indexOf starts_with]. rewrite Hc. cbn [andb].
  specialize (IH Hu). now destruct (indexOf (String a w) (u ++ t)), (indexOf (String a w) t).
Qed.

(** A star followed by a literal finds nothing where the literal does not
    occur. *)
Lemma star_m_lit_absent {R : Type} (q : ascii -> bool) prev (s : string) cs (w : string)
    (F : string -> caps -> caps) (K : @cont R) :
  includes s w = false ->
  star_m q prev s cs (fun p u c => lit_m Ascii.eqb w p u (F u c) K) = None.
Proof.
  revert prev. induction s as [|x s IH]; intros prev Hn;
    destruct (includes_false_inv _ _ Hn) as [Hs Ht]; cbn [star_m].
  - now apply lit_m_miss.
  - rewrite (IH (Some x) (Ht x s eq_refl)). rewrite (lit_m_miss _ _ _ _ _ Hs).
    now destruct (q x).
Qed.

(** A greedy star gives back what it took, up to the last position where
    the rest succeeds. *)
Lemma star_m_backtrack {R : Type} (q : ascii -> bool) (a s : string) prev cs
    (k : @cont R) (v : R) :
  all_chars q a = true ->
  k (last_char prev a) s cs = Some v ->
  match s with
  | EmptyString => True
  | String c t => q c = false \/ star_m q (Some c) t cs k = None
  end ->
  star_m q prev (a ++ s) cs k = Some v.
Proof.
  revert prev. induction a as [|x a IH]; intros prev Ha Hk Hs.
  - cbn [append last_char] in *. destruct s as [|c t]; [exact Hk|].
    cbn [star_m]. destruct Hs as [-> | ->]; [exact Hk|]. now destruct (q c).
  - cbn [all_chars] in Ha. apply andb_true_iff in Ha as [Hx Ha].
    cbn [append star_m]. rewrite Hx. now rewrite (IH (Some x) Ha Hk Hs).
Qed.

Lemma all_chars_any (s : string) : all_chars any_char s = true.
Proof. induction s as [|c s IH]; [reflexivity | exact IH]. Qed.

Lemma open_not_inside (t : string) :
  includes t OPEN = false ->
  includes ("% configuration %}" ++ t) OPEN = false.
Proof.
  intros H. unfold OPEN in *.
  now rewrite (includes_skip "{" "% configuration %}" "% configuration %}" t eq_refl).
Qed.

Lemma close_not_inside (t : string) :
  includes t CLOSE = false ->
  includes ("% endconfiguration %}" ++ t) CLOSE = false.
Proof.
  intros H. unfold CLOSE in *.
  now rewrite (includes_skip "{" "% endconfiguration %}" "% endconfiguration %}" t eq_refl).
Qed.

(** The first [replace] of the constructor: everything up to the last
    opening sentinel goes. *)
Lemma strip_upto_last_open (a t : string) :
  includes t OPEN = false ->
  replace OpenApi.re_upto_open (with_text EmptyString) (a ++ OPEN ++ t) = t.
Proof.
  intros Hn. unfold replace, exec.
  assert (Hm : exists mt,
             match_here OpenApi.re_upto_open None (a ++ OPEN ++ t) = Some mt /\
             before mt = EmptyString /\ after mt = t).
  { unfold match_here, OpenApi.re_upto_open. cbn [m].
    eexists. split; [|split].
    - apply star_m_backtrack; [apply all_chars_any | rewrite lit_m_append; reflexivity |].
      change (OPEN ++ t) with (String "{" ("% configuration %}" ++ t)). cbv beta iota.
      right. apply (star_m_lit_absent any_char _ _ _ OPEN (fun _ c => c)).
      now apply open_not_inside.
    - reflexivity.
    - reflexivity. }
  destruct Hm as (mt & Hm & Hb & Ha).
  rewrite (search_here _ _ _ _ Hm), Hb, Ha. reflexivity.
Qed.

(** The second [replace]: everything from the first closing sentinel goes. *)
Lemma strip_from_first_close (b c : string) :
  indexOf CLOSE (b ++ CLOSE ++ c) = Some (length b) ->
  replace OpenApi.re_from_close (with_text EmptyString) (b ++ CLOSE ++ c) = b.
Proof.
  intros Hi. unfold replace, exec, OpenApi.re_from_close.
  rewrite (search_first_literal (Star any_char) CLOSE b c None
             (mkMatch EmptyString (CLOSE ++ c) EmptyString
                (last_char (last_char (last_char None b) CLOSE) c) nil)).
  - rewrite before_prepend, after_prepend. cbn [before after with_text].
    now rewrite !append_nil_r.
  - intros p s Hs. unfold match_here. cbn [m]. now apply lit_m_miss.
  - exact Hi.
  - unfold match_here. cbn [m]. rewrite lit_m_append, star_any_rest, taken_all.
    reflexivity.
Qed.

Lemma constructor_block (a b c : string) :
  includes (b ++ CLOSE ++ c) OPEN = false ->
  indexOf CLOSE (b ++ CLOSE ++ c) = Some (length b) ->
  OpenApi.extract_source (a ++ OPEN ++ b ++ CLOSE ++ c) = b.
Proof.
  intros Ho Hc. unfold OpenApi.extract_source.
  rewrite (strip_upto_last_open a (b ++ CLOSE ++ c) Ho).
  now apply strip_from_first_close.
Qed.

Lemma greedy_block (a b c : string) :
  indexOf OPEN (a ++ OPEN ++ b ++ CLOSE ++ c) = Some (length a) ->
  includes c CLOSE = false ->
  option_map (group_text 1)
    (exec Entity.re_configuration (a ++ OPEN ++ b ++ CLOSE ++ c)) = Some b.
Proof.
  intros Ho Hc. unfold exec, Entity.re_configuration.
  set (r := Seq (Group 1 (Star any_char)) (Lit CLOSE)).
  assert (Hm : exists mt,
             match_here (Seq (Lit OPEN) r) (last_char None a) (OPEN ++ b ++ CLOSE ++ c) =
               Some mt /\ groups mt = [(1, b)]).
  { unfold match_here, r. cbn [m]. rewrite lit_m_append.
    eexists. split.
    - apply star_m_backtrack; [apply all_chars_any | rewrite lit_m_append; reflexivity |].
      change (CLOSE ++ c) with (String "{" ("% endconfiguration %}" ++ c)).
      cbv beta iota. right.
      apply (star_m_lit_absent any_char _ _ _ CLOSE
               (fun s' c' => (1, taken (b ++ CLOSE ++ c) s') :: c')).
      now apply close_not_inside.
    - cbn [groups]. now rewrite taken_append. }
  destruct Hm as [mt [Hm Hg]].
  rewrite (search_first_literal r OPEN a (b ++ CLOSE ++ c) None mt); [| |exact Ho|exact Hm].
  - cbn [option_map]. unfold group_text. rewrite groups_prepend, Hg. reflexivity.
  - intros p s Hs. unfold match_here. cbn [m]. now apply lit_m_miss.
Qed.

(** X5: the constructor of [HomeAssistantConfiguration] keeps the text
    between the LAST opening sentinel of the document and the first closing
    sentinel after it, whatever stands in front (other blocks included). *)
Theorem constructor_takes_last_block (a b c : string) :
  includes (b ++ CLOSE ++ c) OPEN = false ->
  indexOf CLOSE (b ++ CLOSE ++ c) = Some (length b) ->
  OpenApi.extract_source (a ++ OPEN ++ b ++ CLOSE ++ c) = b.
Proof. exact (constructor_block a b c). Qed.

Lemma constructor_takes_last_block_witness :
  OpenApi.extract_source
    (lines [ "intro"; OPEN; "first:"; CLOSE; "between" ] ++ OPEN
     ++ (nl ++ "second:" ++ nl) ++ CLOSE ++ (nl ++ "outro" ++ nl)) =
  nl ++ "second:" ++ nl.
Proof.
  apply (constructor_takes_last_block
           (lines [ "intro"; OPEN; "first:"; CLOSE; "between" ])
           (nl ++ "second:" ++ nl) (nl ++ "outro" ++ nl)); reflexivity.
Defined.

(** X6: [generateMqttEntityModel] of entity.ts hands to the decoder the
    text from the FIRST opening sentinel to the LAST closing sentinel,
    whatever stands between them (other sentinels included). *)
Theorem entity_takes_first_to_last (a b c : string) :
  indexOf OPEN (a ++ OPEN ++ b ++ CLOSE ++ c) = Some (length a) ->
  includes c CLOSE = false ->
  option_map (group_text 1)
    (exec Entity.re_configuration (a ++ OPEN ++ b ++ CLOSE ++ c)) = Some b.
Proof. exact (greedy_block a b c). Qed.

Lemma entity_takes_first_to_last_witness :
  option_map (group_text 1)
    (exec Entity.re_configuration
       ((lines [ "intro" ]) ++ OPEN
        ++ (nl ++ lines [ "first:"; CLOSE; "between"; OPEN; "second:" ])
        ++ CLOSE ++ (nl ++ "outro" ++ nl))) =
  Some (nl ++ lines [ "first:"; CLOSE; "between"; OPEN; "second:" ]).
Proof.
  apply (entity_takes_first_to_last (lines [ "intro" ])
           (nl ++ lines [ "first:"; CLOSE; "between"; OPEN; "second:" ])
           (nl ++ "outro" ++ nl)); reflexivity.
Defined.

(** X7: the later revision of [generateMqttEntityModel] hands to the
    decoder the text between the first opening sentinel and the first
    closing sentinel after it. *)
Theorem variant_takes_first_block (a b c : string) :
  indexOf OPEN (a ++ OPEN ++ b ++ CLOSE ++ c) = Some (length a) ->
  indexOf CLOSE (b ++ CLOSE ++ c) = Some (length b) ->
  option_map (group_text 1)
    (exec EntityVariant.re_configuration (a ++ OPEN ++ b ++ CLOSE ++ c)) = Some b.
Proof. exact (variant_first_block a b c). Qed.

Lemma variant_takes_first_block_witness :
  option_map (group_text 1)
    (exec EntityVariant.re_configuration
       ((lines [ "intro" ]) ++ OPEN ++ (nl ++ "first:" ++ nl) ++ CLOSE
        ++ (nl ++ lines [ "between"; OPEN; "second:"; CLOSE; "outro" ]))) =
  Some (nl ++ "first:" ++ nl).
Proof.
  apply (variant_takes_first_block (lines [ "intro" ]) (nl ++ "first:" ++ nl)
           (nl ++ lines [ "between"; OPEN; "second:"; CLOSE; "outro" ])); reflexivity.
Defined.

(** X8: on a document with a single block (one opening sentinel, one
    closing sentinel after it) the three extractors agree: each returns the
    text between the two sentinels. *)
Theorem single_block_agreement (a b c : string) :
  indexOf OPEN (a ++ OPEN ++ b ++ CLOSE ++ c) = Some (length a) ->
  includes (b ++ CLOSE ++ c) OPEN = false ->
  indexOf CLOSE (b ++ CLOSE ++ c) = Some (length b) ->
  includes c CLOSE = false ->
  OpenApi.extract_source (a ++ OPEN ++ b ++ CLOSE ++ c) = b /\
  option_map (group_text 1)
    (exec Entity.re_configuration (a ++ OPEN ++ b ++ CLOSE ++ c)) = Some b /\
  option_map (group_text 1)
    (exec EntityVariant.re_configuration (a ++ OPEN ++ b ++ CLOSE ++ c)) = Some b.
Proof.
  intros Ho Hno Hc Hnc. split; [|split].
  - now apply constructor_block.
  - now apply greedy_block.
  - now apply variant_first_block.
Qed.

Lemma single_block_agreement_witness :
  OpenApi.extract_source select_doc = nl ++ "command_topic: ..." ++ nl /\
  option_map (group_text 1) (exec Entity.re_configuration select_doc) =
    Some (nl ++ "command_topic: ..." ++ nl) /\
  option_map (group_text 1) (exec EntityVariant.re_configuration select_doc) =
    Some (nl ++ "command_topic: ..." ++ nl).
Proof.
  apply (single_block_agreement (lines [ "---"; "title: MQTT Select"; "---" ])
           (nl ++ "command_topic: ..." ++ nl) (nl ++ "outro" ++ nl)); reflexivity.
Defined.

(** ** The constructor: name, description, exceptions *)

Lemma star_m_cls_absent {R : Type} (q q2 : ascii -> bool) prev (s : string) cs
    (K : @cont R) :
  all_chars (not_class q2) s = true ->
  star_m q prev s cs
    (fun p u c => match u with
                  | String x u' => if q2 x then K (Some x) u' c else None
                  | EmptyString => None
                  end) = None.
Proof.
  revert prev. induction s as [|x s IH]; intros prev Hs; cbn [star_m]; [reflexivity|].
  cbn [all_chars] in Hs. apply andb_true_iff in Hs as [Hx Hs].
  unfold not_class in Hx. apply negb_true_iff in Hx.
  rewrite (IH (Some x) Hs), Hx. now destruct (q x).
Qed.

(** /^.*[/]/ takes the directories of a one-line path. *)
Lemma strip_dirname (dir rest : string) :
  all_chars dot dir = true ->
  all_chars (not_class (is_char "/")) rest = true ->
  replace OpenApi.re_dirname (with_text EmptyString) (dir ++ "/" ++ rest) = rest.
Proof.
  intros Hd Hr. unfold replace, exec.
  assert (Hm : exists mt,
             match_here OpenApi.re_dirname None (dir ++ "/" ++ rest) = Some mt /\
             before mt = EmptyString /\ after mt = rest).
  { unfold match_here, OpenApi.re_dirname. cbn [m].
    eexists. split; [|split].
    - apply star_m_backtrack; [exact Hd | reflexivity |].
      cbn [append]. right.
      now apply (star_m_cls_absent dot (is_char "/") _ rest _
                   (fun p s c =>
                      Some (mkMatch EmptyString (taken (dir ++ String "/" rest) s) s p c))).
    - reflexivity.
    - reflexivity. }
  destruct Hm as (mt & Hm & Hb & Ha).
  rewrite (search_here _ _ _ _ Hm), Hb, Ha. reflexivity.
Qed.

(** A pattern that matches texts of one length only is tried in vain in
    front of a text of that length. *)
Lemma search_fixed_length (r : regex) (n : nat) :
  (forall p s mt, match_here r p s = Some mt -> length s = n) ->
  forall e sfx prev, length sfx = n ->
    search r prev (e ++ sfx) =
    option_map (prepend e) (search r (last_char prev e) sfx).
Proof.
  intros Hr e sfx. induction e as [|x e IH]; intros prev Hn.
  - cbn [append last_char]. now rewrite option_map_prepend_nil.
  - cbn [append search last_char].
    destruct (match_here r prev (String x (e ++ sfx))) as [mt|] eqn:E.
    + apply Hr in E. cbn [length] in E. rewrite length_append in E. lia.
    + rewrite (IH (Some x) Hn).
      now destruct (search r (last_char (Some x) e) sfx).
Qed.

Lemma re_suffix_length (p : option ascii) (s : string) (mt : MatchResult) :
  match_here OpenApi.re_suffix p s = Some mt -> length s = 14.
Proof.
  unfold match_here, OpenApi.re_suffix. cbn [m]. intros H.
  destruct s as [|c1 s]; [discriminate|]. destruct (dot c1); [|discriminate].
  apply lit_m_exact in H as (s2 & p2 & -> & H).
  destruct s2 as [|c2 s2]; [discriminate|]. destruct (dot c2); [|discriminate].
  apply lit_m_exact in H as (s3 & p3 & -> & H).
  destruct s3; [reflexivity | discriminate].
Qed.

(** /.mqtt.markdown$/ takes the last fourteen characters when they are the
    suffix, its two dots standing for any character of a line. *)
Lemma strip_suffix (e : string) (c1 c2 : ascii) :
  dot c1 = true -> dot c2 = true ->
  replace OpenApi.re_suffix (with_text EmptyString)
    (e ++ String c1 "mqtt" ++ String c2 "markdown") = e.
Proof.
  intros H1 H2. unfold replace, exec.
  rewrite (search_fixed_length OpenApi.re_suffix 14 re_suffix_length); [|reflexivity].
  assert (Hm : match_here OpenApi.re_suffix (last_char None e)
                 (String c1 "mqtt" ++ String c2 "markdown") =
               Some (mkMatch EmptyString (String c1 "mqtt" ++ String c2 "markdown")
                       EmptyString (Some "n"%char) nil)).
  { unfold match_here, OpenApi.re_suffix. cbn [m append]. rewrite H1.
    cbn [lit_m Ascii.eqb Bool.eqb]. rewrite H2. reflexivity. }
  rewrite (search_here _ _ _ _ Hm). cbn [option_map].
  rewrite before_prepend, after_prepend. cbn [before after with_text].
  now rewrite !append_nil_r.
Qed.

(** X9: for a one-line path [dir/entity.mqtt.markdown] the constructor
    names the configuration [entity]: the directories go, and so do the
    last fourteen characters -- the dots of the pattern are not escaped, so
    any character may stand where the suffix has its two dots. *)
Theorem configuration_name_of_path (fs : string -> option string)
    (dir entity text : string) (c1 c2 : ascii) :
  all_chars dot dir = true ->
  all_chars (not_class (is_char "/"))
    (entity ++ String c1 "mqtt" ++ String c2 "markdown") = true ->
  dot c1 = true -> dot c2 = true ->
  fs (dir ++ "/" ++ entity ++ String c1 "mqtt" ++ String c2 "markdown") = Some text ->
  exists cfg,
    OpenApi.constructor fs
      (dir ++ "/" ++ entity ++ String c1 "mqtt" ++ String c2 "markdown") = Ok cfg /\
    OpenApi.name cfg = entity.
Proof.
  intros Hd He H1 H2 Hfs. unfold OpenApi.constructor, readFileSync at 1.
  rewrite Hfs. cbn [bind]. eexists. split; [reflexivity|]. cbn [OpenApi.name].
  change (replace OpenApi.re_suffix (with_text EmptyString)
            (replace OpenApi.re_dirname (with_text EmptyString)
               (dir ++ "/" ++ (entity ++ String c1 "mqtt" ++ String c2 "markdown"))) =
          entity).
  rewrite (strip_dirname dir _ Hd He). now apply strip_suffix.
Qed.

Lemma configuration_name_of_path_witness :
  exists cfg,
    OpenApi.constructor plain_fs "docs/plain.mqtt.markdown" = Ok cfg /\
    OpenApi.name cfg = "plain".
Proof.
  apply (configuration_name_of_path plain_fs "docs" "plain" plain_doc "." ".");
    reflexivity.
Defined.

Lemma strip_upto_last (x : ascii) (w a t : string) :
  includes (w ++ t) (String x w) = false ->
  replace (Seq (Star any_char) (Lit (String x w))) (with_text EmptyString)
    (a ++ String x w ++ t) = t.
Proof.
  intros Hn. unfold replace, exec.
  assert (Hm : exists mt,
             match_here (Seq (Star any_char) (Lit (String x w))) None
               (a ++ String x w ++ t) = Some mt /\
             before mt = EmptyString /\ after mt = t).
  { unfold match_here. cbn [m].
    eexists. split; [|split].
    - apply star_m_backtrack; [apply all_chars_any | rewrite lit_m_append; reflexivity |].
      cbn [append]. right.
      now apply (star_m_lit_absent any_char _ _ _ (String x w) (fun _ c => c)).
    - reflexivity.
    - reflexivity. }
  destruct Hm as (mt & Hm & Hb & Ha).
  rewrite (search_here _ _ _ _ Hm), Hb, Ha. reflexivity.
Qed.

Lemma hd_error_filter {A : Type} (f : A -> bool) (l : list A) (x : A) :
  hd_error (filter f l) = Some x -> f x = true.
Proof.
  intros H. assert (Hin : In x (filter f l)).
  { destruct (filter f l); [discriminate|]. injection H as ->. now left. }
  now apply filter_In in Hin.
Qed.

(** X10: the constructor throws exactly when the document itself cannot be
    read; the companion document is optional.  Without it the description
    is [undefined]; with it, the description is the first line that is not
    blank after the LAST separator line "---" of the companion (the
    pattern is greedy), and never a blank line. *)
Theorem constructor_description (fs : string -> option string) (p : string) :
  let companion := replace (Lit ".mqtt.markdown") (with_text ".markdown") p in
  (fs p = None -> OpenApi.constructor fs p = Throw FileNotFound) /\
  (forall text, fs p = Some text ->
     exists cfg,
       OpenApi.constructor fs p = Ok cfg /\
       OpenApi.path cfg = p /\
       OpenApi.source cfg = OpenApi.extract_source text /\
       (fs companion = None -> OpenApi.cfg_description cfg = None) /\
       (forall a body,
          fs companion = Some (a ++ FRONT_MATTER_END ++ body) ->
          includes ("---" ++ nl ++ body) FRONT_MATTER_END = false ->
          OpenApi.cfg_description cfg =
            hd_error (filter (fun line => negb (Nat.eqb (length (OpenApi.trim line)) 0))
                        (split_on LF body))) /\
       (forall line, OpenApi.cfg_description cfg = Some line ->
          OpenApi.trim line <> EmptyString)).
Proof.
  intros companion. split.
  - intros Hn. unfold OpenApi.constructor, readFileSync. now rewrite Hn.
  - intros text Ht. unfold OpenApi.constructor, readFileSync at 1. rewrite Ht.
    cbn [bind]. eexists. split; [reflexivity|].
    cbn [OpenApi.path OpenApi.source OpenApi.cfg_description]. fold companion.
    split; [reflexivity|]. split; [reflexivity|]. split; [|split].
    + intros Hc. unfold readFileSync. now rewrite Hc.
    + intros a body Hc Hn. unfold readFileSync. rewrite Hc.
      unfold OpenApi.re_front_matter.
      change (nl ++ "---" ++ nl) with (String LF ("---" ++ nl)).
      change (a ++ FRONT_MATTER_END ++ body)
        with (a ++ String LF ("---" ++ nl) ++ body).
      rewrite (strip_upto_last LF ("---" ++ nl) a body); [reflexivity|].
      rewrite append_assoc. exact Hn.
    + intros line Hl. destruct (readFileSync fs companion); [|discriminate].
      apply hd_error_filter in Hl. apply negb_true_iff in Hl.
      intros E. rewrite E in Hl. discriminate.
Qed.

Lemma constructor_description_witness :
  exists cfg,
    OpenApi.constructor
      (fun p => if String.eqb p "sensor.mqtt.markdown" then Some select_doc
                else if String.eqb p "sensor.markdown"
                     then Some (("---" ++ nl ++ "title: Sensor") ++ FRONT_MATTER_END
                                ++ lines [ "  "; "The sensor platform."; "More." ])
                     else None)
      "sensor.mqtt.markdown" = Ok cfg /\
    OpenApi.cfg_description cfg = Some "The sensor platform.".
Proof.
  set (fs := fun p => if String.eqb p "sensor.mqtt.markdown" then Some select_doc
                      else if String.eqb p "sensor.markdown"
                           then Some (("---" ++ nl ++ "title: Sensor") ++ FRONT_MATTER_END
                                      ++ lines [ "  "; "The sensor platform."; "More." ])
                           else None).
  destruct (proj2 (constructor_description fs "sensor.mqtt.markdown") select_doc eq_refl)
    as (cfg & Hc & _ & _ & _ & Hd & _).
  exists cfg. split; [exact Hc|].
  rewrite (Hd ("---" ++ nl ++ "title: Sensor")
              (lines [ "  "; "The sensor platform."; "More." ]) eq_refl eq_refl).
  reflexivity.
Defined.

(** ** The comment block of a fragment *)

Lemma taken_self (s : string) : taken s s = EmptyString.
Proof. unfold taken. rewrite Nat.sub_diag. now destruct s. Qed.

Lemma search_BolM_at_start (prev : option ascii) (s : string) :
  at_line_start prev = true ->
  search BolM prev s = Some (mkMatch EmptyString EmptyString s prev nil).
Proof.
  intros H. apply search_here. unfold match_here. cbn [m]. now rewrite H, taken_self.
Qed.

Lemma replace_from_skip (fuel : nat) (r : regex) (mark : string)
    (prev : option ascii) (c : ascii) (t : string) :
  match_here r prev (String c t) = None ->
  replace_from (S fuel) r (with_text mark) prev (String c t) =
  String c (replace_from (S fuel) r (with_text mark) (Some c) t).
Proof.
  intros Hm. cbn [replace_from search]. rewrite Hm.
  destruct (search r (Some c) t) as [mt|]; reflexivity.
Qed.

Lemma replace_BolM (mark : string) (fuel : nat) :
  forall s prev, length s < fuel ->
    replace_from fuel BolM (with_text mark) prev s = prefix_lines mark prev s.
Proof.
  induction fuel as [|f IHf]; intros s prev Hl; [lia|].
  revert prev Hl. induction s as [|c t IHs]; intros prev Hl.
  - cbn [prefix_lines]. destruct (at_line_start prev) eqn:E.
    + cbn [replace_from]. rewrite (search_BolM_at_start prev EmptyString E).
      reflexivity.
    + cbn [replace_from search]. unfold match_here. cbn [m]. rewrite E. reflexivity.
  - cbn [prefix_lines]. destruct (at_line_start prev) eqn:E.
    + cbn [replace_from]. rewrite (search_BolM_at_start prev (String c t) E).
      cbn [before matched after after_prev with_text append].
      rewrite IHf; [reflexivity | cbn [length] in Hl; lia].
    + rewrite replace_from_skip.
      * rewrite IHs; [reflexivity | cbn [length] in Hl; lia].
      * unfold match_here. cbn [m]. now rewrite E.
Qed.

Lemma join_cons (sep x : string) (l : list string) :
  join sep (x :: l) =
  x ++ match l with nil => EmptyString | _ :: _ => sep ++ join sep l end.
Proof. destruct l; cbn [join]; [now rewrite append_nil_r | reflexivity]. Qed.

Lemma split_on_cons (sep : ascii) (s : string) :
  exists h tl, split_on sep s = h :: tl.
Proof.
  induction s as [|c s [h [tl IH]]]; cbn [split_on]; [eauto|].
  destruct (Ascii.eqb c sep); [eauto|]. rewrite IH. eauto.
Qed.

Lemma prefix_lines_eq (mark : string) (prev : option ascii) (s : string) :
  prefix_lines mark prev s =
  (if at_line_start prev then mark else EmptyString) ++
  match s with
  | EmptyString => EmptyString
  | String c t => String c (prefix_lines mark (Some c) t)
  end.
Proof. now destruct s. Qed.

(** Without carriage returns, the marked text is the marked lines. *)
Lemma prefix_lines_join (mark : string) (s : string) :
  all_chars (not_char CR) s = true ->
  prefix_lines mark None s = join nl (map (append mark) (split_on LF s)).
Proof.
  intros Hs. rewrite prefix_lines_eq. cbn [at_line_start].
  assert (H : forall s, all_chars (not_char CR) s = true ->
            match s with
            | EmptyString => EmptyString
            | String c t => String c (prefix_lines mark (Some c) t)
            end =
            match split_on LF s with
            | nil => EmptyString
            | h :: tl =>
                h ++ match map (append mark) tl with
                     | nil => EmptyString
                     | _ :: _ => nl ++ join nl (map (append mark) tl)
                     end
            end).
  { clear s Hs. induction s as [|c t IH]; intros Hs; [reflexivity|].
    cbn [all_chars] in Hs. apply andb_true_iff in Hs as [Hc Hs].
    specialize (IH Hs). cbn [split_on]. rewrite prefix_lines_eq.
    unfold at_line_start.
    unfold not_char in Hc. apply negb_true_iff in Hc. rewrite Ascii.eqb_sym in Hc.
    rewrite Hc, orb_false_r.
    destruct (split_on_cons LF t) as (h & tl & Ht). rewrite Ht in *.
    destruct (Ascii.eqb_spec c LF) as [->|Hne].
    - cbn [append map]. rewrite join_cons. rewrite IH. rewrite append_assoc.
      reflexivity.
    - cbn [append]. now rewrite IH. }
  destruct (split_on_cons LF s) as (h & tl & Ht).
  specialize (H s Hs). rewrite Ht in *. cbn [map]. rewrite join_cons, H.
  now rewrite append_assoc.
Qed.

(** X11: the fragment written for a document starts with the header line
    and the whole schema source as a comment block: for a source without
    carriage returns, each line of the source (blank lines included), in
    order, with "# " in front, then a blank line and the printed model. *)
Theorem fragment_comment_block
    (yaml_load : string -> result (list (string * OpenApi.Property)))
    (fs : string -> option string) (yaml_dump : value -> string)
    (INTEGRATIONS_DOCS DEVENV_ROOT file : string)
    (config : OpenApi.HomeAssistantConfiguration) (model : value) :
  OpenApi.constructor fs (INTEGRATIONS_DOCS ++ "/" ++ file) = Ok config ->
  OpenApi.toOpenapiObjectModel yaml_load config = Ok model ->
  all_chars (not_char CR) (OpenApi.source config) = true ->
  OpenApi.convert yaml_load fs yaml_dump INTEGRATIONS_DOCS DEVENV_ROOT file =
    Ok (DEVENV_ROOT ++ "/specs/fragments/" ++ OpenApi.name config ++ ".yml",
        "# Auto-generated Openapi model from the following content:" ++ nl
        ++ join nl (map (append "# ") (split_on LF (OpenApi.source config)))
        ++ nl ++ nl ++ yaml_dump model).
Proof.
  intros Hc Hm Hs. unfold OpenApi.convert. rewrite Hc. cbn [bind]. rewrite Hm.
  cbn [bind]. unfold replaceAll.
  rewrite replace_BolM; [|lia]. now rewrite prefix_lines_join.
Qed.

Lemma fragment_comment_block_witness :
  OpenApi.convert plain_load plain_fs plain_dump "docs" "root" "plain.mqtt.markdown" =
    Ok ("root/specs/fragments/plain.yml",
        "# Auto-generated Openapi model from the following content:" ++ nl
        ++ join nl (map (append "# ") (split_on LF plain_doc))
        ++ nl ++ nl ++ plain_dump VUndefined).
Proof.
  apply (fragment_comment_block plain_load plain_fs plain_dump "docs" "root"
           "plain.mqtt.markdown"
           (OpenApi.mkConfiguration "docs/plain.mqtt.markdown" "plain" None plain_doc)
           (VObj [ ("type", VStr "object");
                   ("description", VStr EmptyString);
                   ("required", VArr [ VStr "state_topic" ]);
                   ("properties",
                     VObj [ ("state_topic",
                              VObj [ ("description", VStr "The MQTT topic.");
                                     ("type", VStr "string") ]) ]) ]));
    reflexivity.
Defined.

(** ** The typed model *)

Lemma entity_base_type_outcome (a : FieldAttributes) :
  match type a with
  | None => Entity.base_type a = Throw TypeError
  | Some _ =>
      exists b, Entity.base_type a = Ok b /\
                rustSafeName b = rustSafeName a /\ required b = required a
  end.
Proof.
  unfold Entity.base_type.
  destruct (type a) as [[t|l]|]; cbn [type_includes_list bind]; [ | |reflexivity];
    case_ifs; eexists; (split; [reflexivity|split; reflexivity]).
Qed.

Lemma variant_base_type_outcome (a : FieldAttributes) :
  match type a with
  | None => EntityVariant.base_type a = Throw TypeError
  | Some _ =>
      exists b, EntityVariant.base_type a = Ok b /\
                rustSafeName b = rustSafeName a /\ required b = required a
  end.
Proof.
  unfold EntityVariant.base_type, EntityVariant.iterable_string.
  destruct (type a) as [[t|l]|]; cbn [type_includes_list bind]; [ | |reflexivity];
    case_ifs; try destruct (keys a);
    eexists; (split; [reflexivity|split; reflexivity]).
Qed.

Lemma entity_name_override_keeps (n : string) (a : FieldAttributes) :
  rustSafeName (Entity.name_override n a) = rustSafeName a /\
  required (Entity.name_override n a) = required a /\
  useInto (Entity.name_override n a) = useInto a.
Proof.
  unfold Entity.name_override.
  case_ifs; try destruct (anchor_name a); cbn; auto.
Qed.

Lemma variant_name_override_keeps (n : string) (a : FieldAttributes) :
  rustSafeName (EntityVariant.name_override n a) = rustSafeName a /\
  required (EntityVariant.name_override n a) = required a /\
  useInto (EntityVariant.name_override n a) = useInto a /\
  iterable (EntityVariant.name_override n a) = iterable a.
Proof.
  unfold EntityVariant.name_override.
  case_ifs; try destruct (anchor_name a); cbn; auto.
Qed.

Lemma safe_name_eq (n : string) :
  (if String.eqb n "type" then "r#" ++ n else n) = safe_name n.
Proof.
  unfold safe_name. destruct (String.eqb_spec n "type") as [->|]; reflexivity.
Qed.

Lemma entity_appendRustType_outcome (n : string) (a : FieldAttributes) :
  match type a with
  | None => Entity.appendRustType n a = Throw TypeError
  | Some _ =>
      exists b, Entity.appendRustType n a = Ok b /\
                rustSafeName b = Some (safe_name n) /\ required b = required a /\
                same_source a b
  end.
Proof.
  unfold Entity.appendRustType. rewrite safe_name_eq.
  pose proof (entity_base_type_outcome (set_rustSafeName (safe_name n) a)) as H.
  cbn [type set_rustSafeName] in H.
  destruct (type a) eqn:Et.
  - destruct H as (b & Hb & Hs & Hr). rewrite Hb. cbn [bind].
    eexists. split; [reflexivity|].
    destruct (entity_name_override_keeps n b) as (-> & -> & _).
    split; [exact Hs|]. split; [exact Hr|].
    apply entity_base_type_source in Hb. destruct Hb as (H1 & H2 & H3).
    destruct (entity_name_override_source n b) as (H4 & H5 & H6).
    unfold same_source. rewrite H4, H5, H6, H1, H2, H3. cbn. auto.
  - now rewrite H.
Qed.

Lemma variant_appendRustType_outcome (n : string) (a : FieldAttributes) :
  match type a with
  | None => EntityVariant.appendRustType n a = Throw TypeError
  | Some _ =>
      exists b, EntityVariant.appendRustType n a = Ok b /\
                rustSafeName b = Some (safe_name n) /\ required b = required a /\
                same_source a b
  end.
Proof.
  unfold EntityVariant.appendRustType. rewrite safe_name_eq.
  pose proof (variant_base_type_outcome (set_rustSafeName (safe_name n) a)) as H.
  cbn [type set_rustSafeName] in H.
  destruct (type a) eqn:Et.
  - destruct H as (b & Hb & Hs & Hr). rewrite Hb. cbn [bind].
    eexists. split; [reflexivity|].
    destruct (variant_name_override_keeps n b) as (-> & -> & _).
    split; [exact Hs|]. split; [exact Hr|].
    apply variant_base_type_source in Hb. destruct Hb as (H1 & H2 & H3).
    destruct (variant_name_override_source n b) as (H4 & H5 & H6).
    unfold same_source. rewrite H4, H5, H6, H1, H2, H3. cbn. auto.
  - now rewrite H.
Qed.

(** X12: in both revisions [appendRustType] throws a TypeError exactly on a
    field without a type tag (the default branch reads [includes] of
    [undefined]); on any other field it returns, the identifier is the
    field name, escaped as "r#type" for the name "type" only, and the
    decoded description, type tag, keys and required flag are unchanged. *)
Theorem appendRustType_outcome (n : string) (a : FieldAttributes) :
  (type a = None ->
     Entity.appendRustType n a = Throw TypeError /\
     EntityVariant.appendRustType n a = Throw TypeError) /\
  (type a <> None ->
     exists a1 a2,
       Entity.appendRustType n a = Ok a1 /\
       EntityVariant.appendRustType n a = Ok a2 /\
       rustSafeName a1 = Some (safe_name n) /\
       rustSafeName a2 = Some (safe_name n) /\
       same_source a a1 /\ same_source a a2 /\
       required a1 = required a /\ required a2 = required a).
Proof.
  pose proof (entity_appendRustType_outcome n a) as H1.
  pose proof (variant_appendRustType_outcome n a) as H2.
  split; intros Ht.
  - rewrite Ht in H1, H2. auto.
  - destruct (type a); [|congruence].
    destruct H1 as (a1 & E1 & S1 & R1 & Q1), H2 as (a2 & E2 & S2 & R2 & Q2).
    exists a1, a2. repeat (split; [assumption|]). assumption.
Qed.

Lemma appendRustType_outcome_witness :
  (Entity.appendRustType "type" (mkField None false None None None None None None None)
     = Throw TypeError /\
   EntityVariant.appendRustType "type" (mkField None false None None None None None None None)
     = Throw TypeError) /\
  exists a1 a2,
    Entity.appendRustType "type" (field "The type." true (TStr "string") None) = Ok a1 /\
    EntityVariant.appendRustType "type" (field "The type." true (TStr "string") None) = Ok a2 /\
    rustSafeName a1 = Some "r#type" /\ rustSafeName a2 = Some "r#type".
Proof.
  split.
  - exact (proj1 (appendRustType_outcome "type"
                    (mkField None false None None None None None None None)) eq_refl).
  - destruct (proj2 (appendRustType_outcome "type"
                       (field "The type." true (TStr "string") None))
                ltac:(discriminate))
      as (a1 & a2 & E1 & E2 & S1 & S2 & _).
    exists a1, a2. auto.
Defined.


Lemma NoDup_names_filter {V : Type} (f : string * V -> bool) (l : list (string * V)) :
  NoDup (names l) -> NoDup (names (filter f l)).
Proof.
  induction l as [|[n v] tl IH]; intros H; [constructor|].
  cbn [names map fst] in H. inversion H as [|? ? Hn Hd]; subst.
  cbn [filter]. destruct (f (n, v)); [|now apply IH].
  cbn [names map fst]. constructor; [|now apply IH].
  intros Hin. apply Hn. unfold names in *. apply in_map_iff in Hin as ([n' v'] & E & Hin).
  apply filter_In in Hin as [Hin _]. apply in_map_iff. now exists (n', v').
Qed.



(** ** The import set of the later revision *)

Lemma Set_of_fold (l acc : list string) :
  NoDup acc ->
  NoDup (fold_left (fun acc x => if mem x acc then acc else (acc ++ [x])%list) l acc) /\
  forall x,
    In x (fold_left (fun acc x => if mem x acc then acc else (acc ++ [x])%list) l acc)
    <-> In x acc \/ In x l.
Proof.
  revert acc. induction l as [|y l IH]; intros acc Hacc; cbn [fold_left].
  - split; [exact Hacc|]. intros x. cbn [In]. tauto.
  - destruct (mem y acc) eqn:Em.
    + destruct (IH acc Hacc) as [Hn Hi]. split; [exact Hn|].
      intros x. rewrite Hi. cbn [In]. apply mem_In in Em.
      split; [tauto|]. intros [H|[<-|H]]; auto.
    + assert (Hy : ~ In y acc).
      { intros H. apply mem_In in H. congruence. }
      assert (Hacc' : NoDup (acc ++ [y])%list).
      { apply NoDup_app; [exact Hacc|repeat constructor; intros []|].
        intros x Hx [<-|[]]. exact (Hy Hx). }
      destruct (IH _ Hacc') as [Hn Hi]. split; [exact Hn|].
      intros x. rewrite Hi, in_app_iff. cbn [In]. tauto.
Qed.

Lemma mapM_names (f : string -> FieldAttributes -> result FieldAttributes)
    (l out : list (string * FieldAttributes)) :
  mapM (fun e => attrs <- f (fst e) (snd e) ;; Ok (fst e, attrs)) l = Ok out ->
  names out = names l.
Proof.
  revert out. induction l as [|[n a] tl IH]; intros out; cbn [mapM].
  - intros H. injection H as <-. reflexivity.
  - cbn [fst snd]. destruct (f n a) as [b|]; cbn [bind]; [|discriminate].
    fold (@mapM (string * FieldAttributes)).
    destruct (mapM _ tl) as [bs|] eqn:E; [|discriminate].
    intros H. injection H as <-. cbn [names map fst]. f_equal. now apply IH.
Qed.

(** X14: the later revision collects the import lines of the model in a
    set: no line occurs twice, and (the decoder yielding distinct field
    names) a line is in the set exactly when it is the non-empty import of
    one of the properties of the model. *)
Theorem variant_model_imports (fs : string -> option string)
    (YAML_parse : string -> result (list (string * FieldAttributes)))
    (name docFile : string) (model : MqttEntity) :
  (forall text md, YAML_parse text = Ok md -> NoDup (names md)) ->
  EntityVariant.generateMqttEntityModel fs YAML_parse name docFile = Ok model ->
  NoDup (imports model) /\
  forall line,
    In line (imports model) <->
    line <> EmptyString /\
    exists n a, In (n, a) (properties model) /\ import a = Some line.
Proof.
  intros Hdist. unfold EntityVariant.generateMqttEntityModel.
  destruct (readFileSync fs docFile) as [doc|]; cbn [bind]; [|discriminate].
  destruct (exec _ doc) as [mt|]; [|discriminate].
  destruct (YAML_parse (group_text 1 mt)) as [md|] eqn:Ep; cbn [bind]; [|discriminate].
  destruct (EntityVariant.lower_fields _ md) as [entries|] eqn:El; cbn [bind];
    [|discriminate].
  intros H. injection H as <-. cbn [imports properties].
  assert (Hn : NoDup (names entries)).
  { unfold EntityVariant.lower_fields in El. apply mapM_names in El. rewrite El.
    apply NoDup_names_filter. exact (Hdist _ _ Ep). }
  rewrite Object_fromEntries_distinct by exact Hn.
  unfold EntityVariant.Set_of.
  destruct (Set_of_fold
              (flat_map (fun e => match import (snd e) with
                                  | Some (String c i) => [String c i]
                                  | _ => nil
                                  end) entries) nil (NoDup_nil _)) as [Hnd Hin].
  split; [exact Hnd|]. intros line. rewrite Hin. cbn [In].
  rewrite in_flat_map. split.
  - intros [[]|([n a] & Hi & Hl)]. cbn [snd] in Hl.
    destruct (import a) as [[|c i]|] eqn:Ei; try contradiction.
    destruct Hl as [<-|[]]. split; [discriminate|]. eauto.
  - intros (Hne & n & a & Hi & Ei). right. exists (n, a). split; [exact Hi|].
    cbn [snd]. rewrite Ei. destruct line; [congruence|]. now left.
Qed.

Lemma variant_model_imports_witness :
  exists model,
    EntityVariant.generateMqttEntityModel select_fs select_parse "select"
      "select.mqtt.markdown" = Ok model /\
    NoDup (imports model) /\
    In "use super::common::Qos" (imports model).
Proof.
  eexists. split; [vm_compute; reflexivity|].
  match goal with |- NoDup (imports ?m) /\ _ =>
    assert (H : EntityVariant.generateMqttEntityModel select_fs select_parse "select"
                  "select.mqtt.markdown" = Ok m) by (vm_compute; reflexivity);
    destruct (variant_model_imports select_fs select_parse "select"
                "select.mqtt.markdown" m
                ltac:(intros text md; unfold select_parse;
                      destruct (String.eqb _ _); [|discriminate];
                      intros E; injection E as <-; apply distinct_NoDup; reflexivity)
                H) as [Hn Hi]
  end.
  split; [exact Hn|]. apply Hi. split; [discriminate|].
  eexists "qos", _. split; [cbn; right; right; right; left; reflexivity|reflexivity].
Defined.

(** ** The device class of a field *)

Lemma anchor_found (pre ent post : string) :
  indexOf "/integrations/" (pre ++ "/integrations/" ++ ent ++ "/#device-class" ++ post)
    = Some (length pre) ->
  all_chars (not_char "/") ent = true ->
  exists mt,
    exec re_anchor (pre ++ "/integrations/" ++ ent ++ "/#device-class" ++ post) = Some mt /\
    group_text 1 mt = ent.
Proof.
  intros Hi He. unfold exec, re_anchor.
  assert (Hm : exists mt0,
            match_here
              (Seq (Lit "/integrations/")
                 (Seq (Group 1 (Star (not_char "/"))) (Lit "/#device-class")))
              (last_char None pre)
              ("/integrations/" ++ ent ++ "/#device-class" ++ post) = Some mt0 /\
            groups mt0 = [(1, ent)]).
  { unfold match_here. cbn [m]. rewrite lit_m_append.
    eexists. split.
    - apply star_m_greedy; [exact He|reflexivity|].
      rewrite lit_m_append. reflexivity.
    - cbn [groups]. now rewrite taken_append. }
  destruct Hm as (mt0 & Hm & Hg).
  exists (prepend pre mt0). split.
  - apply search_first_literal; [|exact Hi|exact Hm].
    intros p s Hs. unfold match_here. cbn [m]. now apply lit_m_miss.
  - unfold group_text. rewrite groups_prepend, Hg. reflexivity.
Qed.

(** X15: a field named "device_class" whose description links to
    "/integrations/<entity>/#device-class" (the first "/integrations/" of
    the description being that of the link, and <entity> a non-empty text
    without a slash) gets, in both revisions and whatever its type tag,
    the enumeration type named after the entity in Pascal case and the
    import of that type from the device classes. *)
Theorem device_class_with_anchor (a : FieldAttributes) (pre ent post : string) :
  description a = Some (pre ++ "/integrations/" ++ ent ++ "/#device-class" ++ post) ->
  indexOf "/integrations/" (pre ++ "/integrations/" ++ ent ++ "/#device-class" ++ post)
    = Some (length pre) ->
  all_chars (not_char "/") ent = true ->
  ent <> EmptyString ->
  type a <> None ->
  exists a1 a2,
    Entity.appendRustType "device_class" a = Ok a1 /\
    EntityVariant.appendRustType "device_class" a = Ok a2 /\
    rustType a1 = Some (toPascalCase ent ++ "DeviceClass") /\
    import a1 = Some ("use super::device_classes::" ++ toPascalCase ent ++ "DeviceClass") /\
    rustType a2 = rustType a1 /\ import a2 = import a1.
Proof.
  intros Hd Hi He Hne Ht.
  destruct (anchor_found pre ent post Hi He) as (mt & Hx & Hg).
  assert (Ha : forall b, same_source a b -> anchor_name b = Some ent).
  { intros b Hb. rewrite (anchor_name_source a b Hb).
    unfold anchor_name, description_text. rewrite Hd, Hx, Hg.
    destruct ent; [congruence|reflexivity]. }
  pose proof (entity_base_type_outcome (set_rustSafeName (safe_name "device_class") a)) as H1.
  pose proof (variant_base_type_outcome (set_rustSafeName (safe_name "device_class") a)) as H2.
  cbn [type set_rustSafeName] in H1, H2.
  destruct (type a) as [t|] eqn:Et; [|congruence].
  destruct H1 as (b1 & E1 & _), H2 as (b2 & E2 & _).
  unfold Entity.appendRustType, EntityVariant.appendRustType.
  rewrite safe_name_eq, E1, E2. cbn [bind].
  assert (S1 : same_source a b1).
  { apply entity_base_type_source in E1. destruct E1 as (? & ? & ?).
    unfold same_source. cbn in *. auto. }
  assert (S2 : same_source a b2).
  { apply variant_base_type_source in E2. destruct E2 as (? & ? & ?).
    unfold same_source. cbn in *. auto. }
  unfold Entity.name_override, EntityVariant.name_override.
  cbn [String.eqb Ascii.eqb Bool.eqb].
  rewrite (Ha b1 S1), (Ha b2 S2).
  eexists. eexists. repeat (split; [reflexivity|]). reflexivity.
Qed.

Lemma device_class_with_anchor_witness :
  exists a1 a2,
    Entity.appendRustType "device_class"
      (field "The [type/class](/integrations/binary_sensor/#device-class) of the sensor."
         false (TStr "device_class") None) = Ok a1 /\
    EntityVariant.appendRustType "device_class"
      (field "The [type/class](/integrations/binary_sensor/#device-class) of the sensor."
         false (TStr "device_class") None) = Ok a2 /\
    rustType a1 = Some (toPascalCase "binary_sensor" ++ "DeviceClass") /\
    import a1 = Some ("use super::device_classes::" ++ toPascalCase "binary_sensor"
                      ++ "DeviceClass") /\
    rustType a2 = rustType a1 /\ import a2 = import a1.
Proof.
  apply (device_class_with_anchor
           (field "The [type/class](/integrations/binary_sensor/#device-class) of the sensor."
              false (TStr "device_class") None)
           "The [type/class](" "binary_sensor" ") of the sensor.");
    [reflexivity|reflexivity|reflexivity|discriminate|discriminate].
Defined.

(** ** Pascal case *)

Lemma replace_from_skip_gen (fuel : nat) (r : regex) (f : MatchResult -> string)
    (prev : option ascii) (c : ascii) (t : string) :
  (forall x mt, f (shift x mt) = f mt) ->
  match_here r prev (String c t) = None ->
  replace_from (S fuel) r f prev (String c t) =
  String c (replace_from (S fuel) r f (Some c) t).
Proof.
  intros Hf Hm. cbn [replace_from search]. rewrite Hm.
  destruct (search r (Some c) t) as [mt|]; [|reflexivity].
  cbn [option_map]. rewrite Hf. reflexivity.
Qed.

Lemma span (q : ascii -> bool) (t : string) :
  exists run rest,
    t = run ++ rest /\ all_chars q run = true /\ stops q rest = true.
Proof.
  induction t as [|c t (run & rest & E & Hr & Hs)].
  - exists EmptyString, EmptyString. auto.
  - destruct (q c) eqn:Eq.
    + exists (String c run), rest. cbn. rewrite Eq, Hr. subst. auto.
    + exists EmptyString, (String c t). cbn. rewrite Eq. auto.
Qed.

Lemma capitalized_stop (up : bool) (rest : string) :
  stops word_char rest = true -> capitalized up rest = capitalized true rest.
Proof.
  destruct rest as [|c t]; [reflexivity|]. cbn. intros H.
  apply negb_true_iff in H. now rewrite H.
Qed.

Lemma capitalized_run (run rest : string) :
  all_chars word_char run = true -> stops word_char rest = true ->
  capitalized false (run ++ rest) = toLowerCase run ++ capitalized true rest.
Proof.
  intros Hr Hs. induction run as [|c run IH].
  - cbn. now apply capitalized_stop.
  - cbn in Hr. apply andb_true_iff in Hr as [Hc Hr].
    cbn [append capitalized]. rewrite Hc, (IH Hr). reflexivity.
Qed.

Lemma length_append_le (a b : string) : length b <= length (a ++ b).
Proof. induction a; cbn; lia. Qed.

Lemma replace_words (f : MatchResult -> string) (fuel : nat) :
  (forall mt, f mt = toUpperCase (group_text 1 mt) ++ toLowerCase (group_text 2 mt)) ->
  forall s prev, length s < fuel ->
    replace_from fuel re_word f prev s = capitalized true s.
Proof.
  intros Hf. induction fuel as [|n IHn]; intros s prev Hl; [lia|].
  revert prev Hl. induction s as [|c t IHs]; intros prev Hl; [reflexivity|].
  cbn [capitalized]. destruct (word_char c) eqn:Ec.
  - destruct (span word_char t) as (run & rest & -> & Hr & Hs).
    assert (Hm : match_here re_word prev (String c (run ++ rest)) =
                 Some (mkMatch EmptyString (String c run) rest
                         (last_char (Some c) run)
                         [(2, run); (1, String c EmptyString)])).
    { unfold match_here, re_word. cbn [m]. rewrite Ec.
      erewrite star_m_greedy; [|exact Hr|exact Hs|reflexivity].
      rewrite taken_append.
      change (String c (run ++ rest)) with (String c run ++ rest).
      rewrite taken_append.
      change (String c run ++ rest) with (String c EmptyString ++ (run ++ rest)).
      rewrite taken_append. reflexivity. }
    cbn [replace_from]. rewrite (search_here _ _ _ _ Hm).
    cbn [before matched after after_prev append]. rewrite Hf.
    unfold group_text. cbn [groups group Nat.eqb].
    rewrite IHn.
    + rewrite (capitalized_run run rest Hr Hs). reflexivity.
    + cbn [length] in Hl. pose proof (length_append_le run rest). lia.
  - rewrite replace_from_skip_gen.
    + rewrite IHs; [reflexivity|cbn [length] in Hl; lia].
    + intros x mt. rewrite !Hf. reflexivity.
    + unfold match_here, re_word. cbn [m]. now rewrite Ec.
Qed.

Lemma capitalized_pascal (s : string) :
  forall up,
    match split_on "_" s with
    | nil => EmptyString
    | h :: tl =>
        capitalized up h ++ join EmptyString (map (capitalized true) tl)
    end = pascal up s.
Proof.
  induction s as [|c t IH]; intros up; [reflexivity|].
  cbn [split_on pascal]. destruct (Ascii.eqb c "_") eqn:Ec.
  - cbn [capitalized append]. rewrite <- (IH true).
    destruct (split_on_cons "_" t) as (h & tl & ->). cbn [map].
    rewrite join_cons. destruct (map _ tl); reflexivity.
  - destruct (split_on_cons "_" t) as (h & tl & E). rewrite E in *.
    cbn [capitalized]. destruct (word_char c); cbn [append]; now rewrite IH.
Qed.

(** X16: [toPascalCase] in one pass, for every text: underscores are
    dropped; each run of letters and digits between underscores and other
    characters has its first character in upper case and the others in
    lower case; any other character is kept. *)
Theorem toPascalCase_one_pass (text : string) :
  toPascalCase text = pascal true text.
Proof.
  unfold toPascalCase. rewrite <- capitalized_pascal.
  destruct (split_on_cons "_" text) as (h & tl & ->).
  assert (Hw : forall w,
            replaceAll re_word
              (fun mt => toUpperCase (group_text 1 mt) ++ toLowerCase (group_text 2 mt)) w
            = capitalized true w).
  { intros w. unfold replaceAll. apply replace_words; [reflexivity|lia]. }
  cbn [map]. rewrite join_cons, Hw.
  rewrite (map_ext _ _ Hw). destruct (map _ tl); reflexivity.
Qed.

(** ** The scanner of device classes *)

Lemma non_word_removed (fuel : nat) :
  forall s prev, length s < fuel ->
    replace_from fuel DeviceClass.re_non_word (with_text EmptyString) prev s =
    filter_chars word_char s.
Proof.
  induction fuel as [|n IHn]; intros s prev Hl; [lia|].
  revert prev Hl. induction s as [|c t IHs]; intros prev Hl; [reflexivity|].
  cbn [filter_chars]. destruct (word_char c) eqn:Ec.
  - rewrite replace_from_skip.
    + rewrite IHs; [reflexivity|cbn [length] in Hl; lia].
    + unfold match_here, DeviceClass.re_non_word, not_class. cbn [m]. now rewrite Ec.
  - assert (Hm : match_here DeviceClass.re_non_word prev (String c t) =
                 Some (mkMatch EmptyString (String c EmptyString) t (Some c) nil)).
    { unfold match_here, DeviceClass.re_non_word, not_class. cbn [m]. rewrite Ec.
      cbn [negb].
      change (String c t) with (String c EmptyString ++ t). now rewrite taken_append. }
    cbn [replace_from]. rewrite (search_here _ _ _ _ Hm).
    cbn [before matched after after_prev with_text append].
    apply IHn. cbn [length] in Hl. lia.
Qed.

Lemma star_m_all {R : Type} (q : ascii -> bool) (s : string) p cs (k : @cont R) (v : R) :
  all_chars q s = true ->
  k (last_char p s) EmptyString cs = Some v ->
  star_m q p s cs k = Some v.
Proof.
  intros Hs Hk. rewrite <- (append_nil_r s). now apply star_m_greedy.
Qed.

Lemma search_lit_absent (w : string) (r : regex) (s : string) :
  forall prev, includes s w = false -> search (Seq (Lit w) r) prev s = None.
Proof.
  induction s as [|c t IH]; intros prev Hn;
    destruct (includes_false_inv _ _ Hn) as [Hs Ht]; cbn [search];
    unfold match_here; cbn [m]; rewrite (lit_m_miss _ _ _ _ _ Hs); [reflexivity|].
  rewrite (IH (Some c) (Ht c t eq_refl)). reflexivity.
Qed.

Lemma bullet_found (pre nm d : string) :
  indexOf "- " (pre ++ "- " ++ nm ++ ": " ++ d) = Some (length pre) ->
  all_chars dot nm = true -> all_chars dot d = true ->
  includes (" " ++ d) ": " = false ->
  exists mt,
    exec DeviceClass.re_bullet (pre ++ "- " ++ nm ++ ": " ++ d) = Some mt /\
    group_text 1 mt = nm /\ group_text 2 mt = d.
Proof.
  intros Hi Hnm Hd Hl. unfold exec, DeviceClass.re_bullet.
  assert (Hm : exists mt0,
            match_here
              (Seq (Lit "- ")
                 (Seq (Group 1 (Star dot)) (Seq (Lit ": ") (Group 2 (Star dot)))))
              (last_char None pre) ("- " ++ nm ++ ": " ++ d) = Some mt0 /\
            groups mt0 = [(2, d); (1, nm)]).
  { unfold match_here. cbn [m]. rewrite lit_m_append.
    eexists. split.
    - apply star_m_backtrack; [exact Hnm| |].
      + rewrite lit_m_append. apply star_m_all; [exact Hd|reflexivity].
      + cbn [append]. right.
        apply (star_m_lit_absent dot _ _ _ ": "
                 (fun u c => (1, taken (nm ++ String ":" (String " " d)) u) :: c)).
        exact Hl.
    - cbn [groups]. rewrite taken_all.
      change (nm ++ ": " ++ d) with (nm ++ (": " ++ d)). now rewrite taken_append. }
  destruct Hm as (mt0 & Hm & Hg).
  exists (prepend pre mt0). split.
  - apply search_first_literal; [|exact Hi|exact Hm].
    intros p s Hs. unfold match_here. cbn [m]. now apply lit_m_miss.
  - unfold group_text. rewrite groups_prepend, Hg. split; reflexivity.
Qed.

(** X17: a line of the section yields an entry for its first "- ": the
    name runs from there to the LAST ": " of the line (the pattern is
    greedy) and is stripped of every character that is no letter, digit or
    underscore; the description is the rest of the line.  A line without
    "- " yields no entry. *)
Theorem bullet_entry :
  (forall pre nm d,
     indexOf "- " (pre ++ "- " ++ nm ++ ": " ++ d) = Some (length pre) ->
     all_chars dot nm = true -> all_chars dot d = true ->
     includes (" " ++ d) ": " = false ->
     DeviceClass.enum_of_line (pre ++ "- " ++ nm ++ ": " ++ d) =
       Some (DeviceClass.mkEnumValue (filter_chars word_char nm) d)) /\
  (forall line, includes line "- " = false -> DeviceClass.enum_of_line line = None).
Proof.
  split.
  - intros pre nm d Hi Hnm Hd Hl.
    destruct (bullet_found pre nm d Hi Hnm Hd Hl) as (mt & Hx & H1 & H2).
    unfold DeviceClass.enum_of_line. rewrite Hx, H1, H2.
    unfold replaceAll. rewrite non_word_removed; [reflexivity|lia].
  - intros line Hn. unfold DeviceClass.enum_of_line, exec, DeviceClass.re_bullet.
    now rewrite search_lit_absent.
Qed.

Lemma bullet_entry_witness :
  DeviceClass.enum_of_line "  - **Carbon monoxide**: CO: gas detected." =
    Some (DeviceClass.mkEnumValue "CarbonmonoxideCO" "gas detected.").
Proof.
  apply (proj1 bullet_entry "  " "**Carbon monoxide**: CO" "gas detected.");
    reflexivity.
Defined.

Lemma lit_m_ci {R : Type} (w : string) :
  forall (w' : string) prev (s : string) cs (k : @cont R),
    toUpperCase w = toUpperCase w' ->
    lit_m eqb_ci w prev (w' ++ s) cs k = k (last_char prev w') s cs.
Proof.
  induction w as [|a w IH]; intros [|b w'] prev s cs k E; try discriminate E.
  - reflexivity.
  - cbn in E. injection E as Ec E.
    cbn [append lit_m last_char]. unfold eqb_ci at 1. rewrite Ec, Ascii.eqb_refl.
    now apply IH.
Qed.

Lemma heading_found (p : option ascii) (hs title es rest : string) :
  at_line_start p = true ->
  all_chars (is_char "#") hs = true ->
  toUpperCase title = toUpperCase " Device Class" ->
  es = EmptyString \/ toUpperCase es = toUpperCase "es" ->
  exists mt,
    match_here DeviceClass.re_heading p
      ("##" ++ hs ++ title ++ es ++ String LF rest) = Some mt /\
    groups mt = [(1, String LF rest)].
Proof.
  intros Hp Hh Ht He. unfold match_here, DeviceClass.re_heading. cbn [m].
  rewrite Hp, lit_m_append.
  assert (Hs : stops (is_char "#") (title ++ es ++ String LF rest) = true).
  { destruct title as [|c title]; [discriminate Ht|].
    cbn in Ht. injection Ht as Hc _. cbn [append stops]. unfold is_char.
    destruct (Ascii.eqb_spec "#"%char c) as [<-|]; [discriminate Hc|reflexivity]. }
  destruct He as [->|He].
  - eexists. split.
    + apply star_m_greedy; [exact Hh|exact Hs|].
      rewrite (lit_m_ci _ _ _ _ _ _ (eq_sym Ht)). cbn [append lit_m].
      change (eqb_ci "e" LF) with false. cbv iota.
      rewrite star_any_rest. reflexivity.
    + cbn [groups]. now rewrite taken_all.
  - eexists. split.
    + apply star_m_greedy; [exact Hh|exact Hs|].
      rewrite (lit_m_ci _ _ _ _ _ _ (eq_sym Ht)). rewrite (lit_m_ci _ _ _ _ _ _ (eq_sym He)).
      rewrite star_any_rest. reflexivity.
    + cbn [groups]. now rewrite taken_all.
Qed.

Lemma heading_free_search (r : regex) (s : string) :
  forall prev,
    heading_free (at_line_start prev) s = true ->
    search (Seq BolM (Seq (Lit "##") r)) prev s = None.
Proof.
  induction s as [|c t IH]; intros prev H; cbn [search]; unfold match_here; cbn [m].
  - now destruct (at_line_start prev).
  - cbn [heading_free] in H. apply andb_true_iff in H as [H1 H2].
    apply negb_true_iff in H1.
    rewrite (IH (Some c) H2).
    destruct (at_line_start prev); [|reflexivity].
    cbn [andb] in H1. now rewrite (lit_m_miss _ _ _ _ _ H1).
Qed.

Lemma next_heading_takes_all (tail : string) :
  starts_with "##" tail = true ->
  exists mt,
    match_here DeviceClass.re_next_heading (Some LF) tail = Some mt /\
    before mt = EmptyString /\ matched mt = tail /\ after mt = EmptyString.
Proof.
  intros Hs.
  destruct tail as [|c1 tail]; [discriminate Hs|].
  cbn [starts_with] in Hs. apply andb_true_iff in Hs as [H1 H2].
  destruct tail as [|c2 tail]; [discriminate H2|].
  cbn [starts_with] in H2. apply andb_true_iff in H2 as [H2 _].
  apply Ascii.eqb_eq in H1, H2. subst c1 c2.
  destruct (span (is_char "#") tail) as (run & rest & -> & Hr & Hst).
  unfold match_here, DeviceClass.re_next_heading. cbn [m].
  change (at_line_start (Some LF)) with true. cbv iota.
  change (String "#" (String "#" (run ++ rest))) with ("##" ++ (run ++ rest)).
  rewrite lit_m_append.
  eexists. split.
  - apply star_m_greedy; [exact Hr|exact Hst|]. rewrite star_any_rest. reflexivity.
  - cbn [before matched after]. rewrite taken_all. auto.
Qed.

Lemma ends_line_last (s : string) :
  forall (c : ascii) (p : option ascii),
    ends_line (String c s) = true -> last_char p (String c s) = Some LF.
Proof.
  induction s as [|d s IH]; intros c p H.
  - cbn in H. apply Ascii.eqb_eq in H. now subst.
  - change (last_char p (String c (String d s)))
      with (last_char (Some c) (String d s)).
    apply IH. exact H.
Qed.

Lemma section_cut (section tail : string) :
  ends_line section = true ->
  heading_free true section = true ->
  tail = EmptyString \/ starts_with "##" tail = true ->
  replaceAll DeviceClass.re_next_heading (with_text EmptyString)
    (String LF section ++ tail) = String LF section.
Proof.
  intros He Hf Ht.
  assert (He' : ends_line (String LF section) = true).
  { cbn [ends_line]. destruct section; [reflexivity|exact He]. }
  assert (Hn : search DeviceClass.re_next_heading None (String LF section) = None).
  { apply heading_free_search. cbn [heading_free at_line_start starts_with].
    cbn. exact Hf. }
  unfold replaceAll. cbn [replace_from].
  rewrite search_past_lines; [|exact re_next_heading_line_local|exact He'|exact Hn].
  rewrite (ends_line_last section LF None He').
  destruct Ht as [->|Ht].
  - rewrite next_heading_at_end. cbn [option_map]. now rewrite append_nil_r.
  - destruct (next_heading_takes_all tail Ht) as (mt & Hm & Hb & Hmt & Ha).
    rewrite (search_here _ _ _ _ Hm). cbn [option_map].
    rewrite before_prepend, matched_prepend, after_prepend, after_prev_prepend.
    rewrite Hb, Hmt, Ha. cbn [with_text].
    destruct tail; [discriminate Ht|].
    rewrite replace_from_end. now rewrite !append_nil_r.
Qed.

(** X18: the values of a document are those of its first device-class
    section.  The heading is a line starting with two or more "#" followed
    by " Device Class" or " Device Classes" in any letter case; the section
    runs from the end of that line to the next line that starts with "##",
    whatever its level, or to the end of the document; every line of the
    section is scanned for an entry. *)
Theorem device_class_section (name pre hs title es section tail : string) :
  ends_line pre = true ->
  exec DeviceClass.re_heading pre = None ->
  all_chars (is_char "#") hs = true ->
  toUpperCase title = toUpperCase " Device Class" ->
  es = EmptyString \/ toUpperCase es = toUpperCase "es" ->
  ends_line section = true ->
  heading_free true section = true ->
  tail = EmptyString \/ starts_with "##" tail = true ->
  DeviceClass.enums_of_text name
    (pre ++ ("##" ++ hs ++ title ++ es ++ String LF (section ++ tail))) =
    Ok (DeviceClass.mkEnumModel name
          (flat_map (fun line => match DeviceClass.enum_of_line line with
                                 | Some v => [v]
                                 | None => nil
                                 end)
             (split_on LF (String LF section)))).
Proof.
  intros Hpre Hno Hh Ht Hes Hsec Hfree Htail.
  unfold DeviceClass.enums_of_text, exec.
  rewrite search_past_lines; [|exact re_heading_line_local|exact Hpre|exact Hno].
  destruct (heading_found (last_char None pre) hs title es (section ++ tail)
              (ends_line_start pre Hpre) Hh Ht Hes) as (mt & Hm & Hg).
  rewrite (search_here _ _ _ _ Hm). cbn [option_map].
  unfold group_text. rewrite groups_prepend, Hg. cbn [group Nat.eqb].
  change (String LF (section ++ tail)) with (String LF section ++ tail).
  rewrite (section_cut section tail Hsec Hfree Htail). reflexivity.
Qed.

Lemma device_class_section_witness :
  DeviceClass.enums_of_text "cover"
    (lines [ "---"; "title: Cover"; "---"; "## Configuration" ]
     ++ ("##" ++ "##" ++ " device class" ++ "ES"
         ++ String LF (lines [ "- `awning`: Control of an awning."; "";
                               "- `blind`: Linked blinds." ]
                       ++ lines [ "## Services"; "- `open`: Opens." ]))) =
    Ok (DeviceClass.mkEnumModel "cover"
          [ DeviceClass.mkEnumValue "awning" "Control of an awning.";
            DeviceClass.mkEnumValue "blind" "Linked blinds." ]).
Proof.
  apply (device_class_section "cover"
           (lines [ "---"; "title: Cover"; "---"; "## Configuration" ])
           "##" " device class" "ES"
           (lines [ "- `awning`: Control of an awning."; "";
                    "- `blind`: Linked blinds." ])
           (lines [ "## Services"; "- `open`: Opens." ]));
    try reflexivity; right; reflexivity.
Defined.

(** X19: the scanner fails on a missing file with the error of
    [readFileSync], and on a document none of whose lines starts with "##"
    with a TypeError: [exec] returns [null] and its element 1 is read. *)
Theorem device_class_errors (fs : string -> option string) (name docFile : string) :
  (fs docFile = None ->
     DeviceClass.extractDeviceClassesEnums fs name docFile = Throw FileNotFound) /\
  (forall docContent,
     fs docFile = Some docContent -> heading_free true docContent = true ->
     DeviceClass.extractDeviceClassesEnums fs name docFile = Throw TypeError).
Proof.
  unfold DeviceClass.extractDeviceClassesEnums, readFileSync. split.
  - intros ->. reflexivity.
  - intros doc -> Hf. cbn [bind]. unfold DeviceClass.enums_of_text, exec.
    unfold DeviceClass.re_heading. now rewrite heading_free_search.
Qed.

Lemma device_class_errors_witness :
  DeviceClass.extractDeviceClassesEnums plain_fs "plain" "missing.markdown"
    = Throw FileNotFound /\
  DeviceClass.extractDeviceClassesEnums plain_fs "plain" "docs/plain.mqtt.markdown"
    = Throw TypeError.
Proof.
  split.
  - apply (proj1 (device_class_errors plain_fs "plain" "missing.markdown")).
    reflexivity.
  - apply (proj2 (device_class_errors plain_fs "plain" "docs/plain.mqtt.markdown")
             plain_doc); reflexivity.
Defined.

(** ** The two revisions of the typed model *)

(** X20: the two revisions of [appendRustType] return the same record for
    every field whose type tag is not "float" and does not include "list",
    unless the field is named "temperature_unit": they differ only on
    floating-point fields (f32 against Decimal and its import), on list
    fields, and on the temperature unit. *)
Theorem revisions_agree (n : string) (a : FieldAttributes) :
  type_includes_list (type a) = Ok false ->
  type a <> Some (TStr "float") ->
  n <> "temperature_unit" ->
  EntityVariant.appendRustType n a = Entity.appendRustType n a.
Proof.
  intros Hl Hf Hn.
  unfold EntityVariant.appendRustType, Entity.appendRustType.
  assert (Hb : EntityVariant.base_type (set_rustSafeName (safe_name n) a) =
               Entity.base_type (set_rustSafeName (safe_name n) a)).
  { unfold EntityVariant.base_type, Entity.base_type. cbn [type set_rustSafeName].
    destruct (type a) as [[t|l]|]; [| |discriminate Hl].
    - destruct (mem t ["template"; "string"; "icon"]); [reflexivity|].
      destruct (String.eqb_spec t "float") as [->|_]; [congruence|].
      destruct (String.eqb t "integer"); [reflexivity|].
      destruct (String.eqb t "boolean"); [reflexivity|].
      destruct (String.eqb_spec t "list") as [->|_]; [discriminate Hl|].
      rewrite Hl. reflexivity.
    - rewrite Hl. reflexivity. }
  rewrite !safe_name_eq, Hb.
  destruct (Entity.base_type _) as [b|]; cbn [bind]; [|reflexivity].
  f_equal. unfold EntityVariant.name_override, Entity.name_override.
  destruct (String.eqb_spec n "temperature_unit") as [->|_]; [congruence|].
  reflexivity.
Qed.

Lemma revisions_agree_witness :
  EntityVariant.appendRustType "qos" (field "The maximum QoS level." false (TStr "integer") None)
  = Entity.appendRustType "qos" (field "The maximum QoS level." false (TStr "integer") None).
Proof.
  apply revisions_agree; [reflexivity|discriminate|discriminate].
Defined.

(** ** The helpers of the templates *)

Lemma replace_line_feeds (sep : string) (fuel : nat) :
  forall s prev, length s < fuel ->
    replace_from fuel (Lit nl) (with_text sep) prev s = join sep (split_on LF s).
Proof.
  induction fuel as [|n IHn]; intros s prev Hl; [lia|].
  revert prev Hl. induction s as [|c t IHs]; intros prev Hl; [reflexivity|].
  cbn [split_on]. destruct (split_on_cons LF t) as (h & tl & Et).
  destruct (Ascii.eqb_spec c LF) as [->|Hc].
  - assert (Hm : match_here (Lit nl) prev (String LF t) =
                 Some (mkMatch EmptyString nl t (Some LF) nil)).
    { unfold match_here, nl. cbn [m lit_m]. rewrite Ascii.eqb_refl.
      change (String LF t) with (String LF EmptyString ++ t). now rewrite taken_append. }
    cbn [replace_from]. rewrite (search_here _ _ _ _ Hm).
    cbn [before matched after after_prev with_text append]. unfold nl at 1.
    rewrite IHn; [|cbn [length] in Hl; lia].
    rewrite Et, (join_cons sep EmptyString). reflexivity.
  - rewrite replace_from_skip.
    + rewrite IHs; [|cbn [length] in Hl; lia].
      rewrite Et, !join_cons. reflexivity.
    + unfold match_here, nl. cbn [m lit_m].
      destruct (Ascii.eqb_spec LF c) as [E|_]; [congruence|reflexivity].
Qed.

(** X21: the helper "comment" of the templates keeps the first line of a
    text as it is and puts "/// " in front of every other line, carriage
    returns and empty lines included; an absent text stays absent. *)
Theorem comment_lines (text : string) :
  Index.comment (Some text) = Some (join (nl ++ "/// ") (split_on LF text)) /\
  Index.comment None = None.
Proof.
  split; [|reflexivity]. unfold Index.comment, replaceAll.
  rewrite replace_line_feeds; [reflexivity|lia].
Qed.
